(** * petit-sibench: a shallow embedding of [petit-sibench.c]

    The program generates a mixture of select-the-whole-table and
    update-one-random-row queries from a number of threads.  The two C
    functions of the file, [thread_main] and [main], are embedded as Rocq
    functions.  Everything outside the program (libpq, the clock, the
    thread library, [rand_r]) is an oracle: a record of answers the
    functions consult, so that every theorem quantifies over all
    behaviours of the outside world. *)

From Stdlib Require Import ZArith List String Ascii Bool Lia DecimalString.
From Stdlib Require DecimalPos DecimalFacts DecimalZ.
Import ListNotations.

Open Scope string_scope.
Open Scope list_scope.
Open Scope Z_scope.

(** ** C integers *)

Module CInt.

Definition INT_MAX : Z := 2147483647.
Definition INT_MIN : Z := -2147483648.

(** Two's complement wrap-around of a 32-bit [int]. *)
Definition wrap (z : Z) : Z := (z - INT_MIN) mod 2 ^ 32 + INT_MIN.

Definition in_range (z : Z) : Prop := INT_MIN <= z <= INT_MAX.

(** [a % b] on [int]: truncated remainder; undefined ([None]) when the
    divisor is zero or the quotient is not representable. *)
Definition rem (a b : Z) : option Z :=
  if (b =? 0) || ((a =? INT_MIN) && (b =? -1)) then None
  else Some (Z.rem a b).

(** Conversion of an [int] to [unsigned]. *)
Definition to_unsigned (z : Z) : Z := z mod 2 ^ 32.

(** [a += b] on [int]. *)
Definition add (a b : Z) : Z := wrap (a + b).

(** [++a] on [int]. *)
Definition incr (a : Z) : Z := wrap (a + 1).

End CInt.

(** [%d] of [printf]. *)
Definition string_of_Z (z : Z) : string :=
  NilEmpty.string_of_int (Z.to_int z).

(** ** Results of a computation that may be undefined or not return *)

Inductive outcome (A : Type) : Type :=
| Returned (a : A)
| Undefined
| OutOfFuel.

Arguments Returned {A} a.
Arguments Undefined {A}.
Arguments OutOfFuel {A}.

Definition bind {A B : Type} (m : outcome A) (k : A -> outcome B) : outcome B :=
  match m with
  | Returned a => k a
  | Undefined => Undefined
  | OutOfFuel => OutOfFuel
  end.

Definition of_option {A : Type} (o : option A) : outcome A :=
  match o with
  | Some a => Returned a
  | None => Undefined
  end.

Notation "x <- m ;; k" := (bind m (fun x => k))
  (at level 61, m at next level, right associativity).
Notation "' p <- m ;; k" := (bind m (fun x => match x with p => k end))
  (at level 61, p pattern, m at next level, right associativity).

(** ** Time *)

Record timeval : Type := mk_timeval { tv_sec : Z; tv_usec : Z }.

(** The instant a normalised [timeval] denotes, in microseconds. *)
Definition micros (t : timeval) : Z := tv_sec t * 1000000 + tv_usec t.

Definition normalised (t : timeval) : Prop := 0 <= tv_usec t < 1000000.

(** ** libpq *)

Inductive ConnStatusType : Type := CONNECTION_OK | CONNECTION_BAD.

Inductive ExecStatusType : Type :=
| PGRES_EMPTY_QUERY
| PGRES_COMMAND_OK
| PGRES_TUPLES_OK
| PGRES_COPY_OUT
| PGRES_COPY_IN
| PGRES_BAD_RESPONSE
| PGRES_NONFATAL_ERROR
| PGRES_FATAL_ERROR.

Definition ExecStatusType_eqb (a b : ExecStatusType) : bool :=
  match a, b with
  | PGRES_EMPTY_QUERY, PGRES_EMPTY_QUERY
  | PGRES_COMMAND_OK, PGRES_COMMAND_OK
  | PGRES_TUPLES_OK, PGRES_TUPLES_OK
  | PGRES_COPY_OUT, PGRES_COPY_OUT
  | PGRES_COPY_IN, PGRES_COPY_IN
  | PGRES_BAD_RESPONSE, PGRES_BAD_RESPONSE
  | PGRES_NONFATAL_ERROR, PGRES_NONFATAL_ERROR
  | PGRES_FATAL_ERROR, PGRES_FATAL_ERROR => true
  | _, _ => false
  end.

(** The statements the program sends.  [sql_of] is the text handed to
    [PQexec]; the constructors keep the [%d] argument apart from the text
    around it. *)
Inductive statement : Type :=
| SetIsolation (ssi : bool)
| Update (key : Z)
| Select
| DropTable
| CreateTable (rows : Z).

Definition sql_of (s : statement) : string :=
  match s with
  | SetIsolation true => "set default_transaction_isolation to serializable"
  | SetIsolation false =>
      String.append "set default_transaction_isolation to "
        (String.append (String (ascii_of_nat 34) "repeatable read")
           (String (ascii_of_nat 34) EmptyString))
  | Update key =>
      String.append "update sibench set i = i where i = " (string_of_Z key)
  | Select => "select * from sibench"
  | DropTable => "drop table if exists sibench"
  | CreateTable rows =>
      ("create table sibench (i int primary key); insert into sibench select generate_series(1, "
         ++ string_of_Z rows ++ "); analyze")%string
  end.

(** ** Observable calls *)

Record double_quotient : Type := mk_quotient { dividend : Z; divisor : Z }.

Inductive event : Type :=
| PQconnectdb (info : string)
| PQexec (s : statement)
| PQclear
| PQfinish
| gettimeofday
| fprintf_stderr (msg : string)
| perror (msg : string)
| malloc (size : Z)
| pthread_create (i : nat)
| pthread_join (i : nat)
| printf_tps (tps : double_quotient) (failures : Z).

(** ** The thread context *)

Record thread_context : Type := mk_context {
  conn_info : string;
  finish_time : timeval;
  queries_per_update : Z;
  rows : Z;
  ssi : bool;
  thread_number : Z;
  transactions : Z;
  failures : Z;
  cycle : Z
}.

Definition incr_failures (c : thread_context) : thread_context :=
  mk_context (conn_info c) (finish_time c) (queries_per_update c) (rows c)
    (ssi c) (thread_number c) (transactions c) (CInt.incr (failures c))
    (cycle c).

Definition incr_transactions (c : thread_context) : thread_context :=
  mk_context (conn_info c) (finish_time c) (queries_per_update c) (rows c)
    (ssi c) (thread_number c) (CInt.incr (transactions c)) (failures c)
    (cycle c).

(** ** What a worker sees of the outside world *)

Record world : Type := mk_world {
  (** [PQstatus] of the connection [PQconnectdb] returned *)
  conn_status : ConnStatusType;
  (** [PQresultStatus] of the isolation command *)
  isolation_status : ExecStatusType;
  (** [rand_r]: from the seed to the value returned and the new seed *)
  rand_r : Z -> Z * Z;
  (** [PQresultStatus] of the statement of the n-th loop iteration *)
  exec_status : nat -> ExecStatusType;
  (** what [gettimeofday] stores in the n-th loop iteration *)
  clock : nat -> timeval
}.

(** ** [thread_main] *)

Record loop_state : Type := mk_loop_state {
  ls_context : thread_context;
  ls_i : Z;
  ls_seed : Z;
  ls_trace : list event
}.

(** The test that leaves the loop, lines 92-94. *)
Definition deadline_reached (now fin : timeval) : bool :=
  (tv_sec now >? tv_sec fin)
  || ((tv_sec now =? tv_sec fin) && (tv_usec now >=? tv_usec fin)).

(** The statement of one iteration and the status that counts as success
    for it; [i] is the counter before [i++]. *)
Definition next_statement (w : world) (context : thread_context) (i seed : Z)
  : outcome (statement * ExecStatusType * Z) :=
  r <- of_option (CInt.rem i (cycle context)) ;;
  if r =? 0 then
    let (value, seed') := rand_r w seed in
    key <- of_option (CInt.rem value (rows context)) ;;
    Returned (Update key, PGRES_COMMAND_OK, seed')
  else Returned (Select, PGRES_TUPLES_OK, seed).

(** One pass through the body of [for (;;)]; the boolean is [true] when
    the pass ends in [break]. *)
Definition iteration (w : world) (n : nat) (st : loop_state)
  : outcome (loop_state * bool) :=
  let context := ls_context st in
  '(stmt, expected, seed') <- next_statement w context (ls_i st) (ls_seed st) ;;
  let i' := CInt.incr (ls_i st) in
  let context1 :=
    if ExecStatusType_eqb (exec_status w n) expected then context
    else incr_failures context in
  let context2 := incr_transactions context1 in
  let now := clock w n in
  Returned
    (mk_loop_state context2 i' seed'
       (ls_trace st ++ [PQexec stmt; PQclear; gettimeofday]),
     deadline_reached now (finish_time context2)).

Fixpoint loop (w : world) (fuel : nat) (n : nat) (st : loop_state)
  : outcome loop_state :=
  match fuel with
  | O => OutOfFuel
  | S fuel' =>
      '(st', stop) <- iteration w n st ;;
      if stop then Returned st' else loop w fuel' (S n) st'
  end.

Definition thread_main (w : world) (context : thread_context) (fuel : nat)
  : outcome (thread_context * list event) :=
  let seed := CInt.to_unsigned (thread_number context) in
  let t0 := [PQconnectdb (conn_info context)] in
  match conn_status w with
  | CONNECTION_OK =>
      let t1 := t0 ++ [PQexec (SetIsolation (ssi context))] in
      if ExecStatusType_eqb (isolation_status w) PGRES_COMMAND_OK then
        st <- loop w fuel 0
                (mk_loop_state context (thread_number context) seed
                   (t1 ++ [PQclear])) ;;
        Returned (ls_context st, ls_trace st ++ [PQfinish])
      else
        Returned
          (context,
           t1 ++ [fprintf_stderr
                    ("thread " ++ string_of_Z (thread_number context)
                     ++ " failed to set isolation level")%string;
                  PQfinish])
  | CONNECTION_BAD =>
      Returned
        (context,
         t0 ++ [fprintf_stderr
                  ("thread " ++ string_of_Z (thread_number context)
                   ++ " failed to connect")%string])
  end.

(** ** Command line *)

Definition is_space (c : ascii) : bool :=
  let n := nat_of_ascii c in
  (Nat.eqb n 32 || (Nat.leb 9 n && Nat.leb n 13))%bool.

Definition digit_of (c : ascii) : option Z :=
  let n := nat_of_ascii c in
  if (Nat.leb 48 n && Nat.leb n 57)%bool then Some (Z.of_nat (n - 48)) else None.

Fixpoint skip_spaces (s : string) : string :=
  match s with
  | String c s' => if is_space c then skip_spaces s' else s
  | EmptyString => s
  end.

Fixpoint digits_value (s : string) (acc : Z) : Z :=
  match s with
  | String c s' =>
      match digit_of c with
      | Some d => digits_value s' (acc * 10 + d)
      | None => acc
      end
  | EmptyString => acc
  end.

(** [atoi] of the C library: leading white space, an optional sign, then
    decimal digits up to the first other character; no digits give 0.  A
    value that does not fit an [int] is reduced as the conversion of the
    [long] result to [int] does. *)
Definition atoi (s : string) : Z :=
  match skip_spaces s with
  | String "-"%char s' => CInt.wrap (- digits_value s' 0)
  | String "+"%char s' => CInt.wrap (digits_value s' 0)
  | s' => CInt.wrap (digits_value s' 0)
  end.

Record config : Type := mk_config {
  c_conn_info : string;
  c_queries_per_update : Z;
  c_rows : Z;
  c_seconds : Z;
  c_ssi : bool;
  c_threads : Z
}.

(** Lines 121-127. *)
Definition defaults : config :=
  mk_config "dbname=postgres" 1 10 60 false 2.

(** Lines 129-152; [args] is [argv] from index 1 on, [None] is the
    [<help wanted>] exit. *)
Fixpoint scan_arguments (args : list string) (c : config) : option config :=
  match args with
  | [] => Some c
  | arg :: rest =>
      match rest with
      | value :: rest' =>
          if (arg =? "--conn-info")%string then
            scan_arguments rest'
              (mk_config value (c_queries_per_update c) (c_rows c)
                 (c_seconds c) (c_ssi c) (c_threads c))
          else if (arg =? "--queries-per-update")%string then
            scan_arguments rest'
              (mk_config (c_conn_info c) (atoi value) (c_rows c)
                 (c_seconds c) (c_ssi c) (c_threads c))
          else if (arg =? "--rows")%string then
            scan_arguments rest'
              (mk_config (c_conn_info c) (c_queries_per_update c) (atoi value)
                 (c_seconds c) (c_ssi c) (c_threads c))
          else if (arg =? "--seconds")%string then
            scan_arguments rest'
              (mk_config (c_conn_info c) (c_queries_per_update c) (c_rows c)
                 (atoi value) (c_ssi c) (c_threads c))
          else if (arg =? "--threads")%string then
            scan_arguments rest'
              (mk_config (c_conn_info c) (c_queries_per_update c) (c_rows c)
                 (c_seconds c) (c_ssi c) (atoi value))
          else if (arg =? "--ssi")%string then
            scan_arguments rest
              (mk_config (c_conn_info c) (c_queries_per_update c) (c_rows c)
                 (c_seconds c) true (c_threads c))
          else None
      | [] =>
          if (arg =? "--ssi")%string then
            Some
              (mk_config (c_conn_info c) (c_queries_per_update c) (c_rows c)
                 (c_seconds c) true (c_threads c))
          else None
      end
  end.

(** ** [main] *)

(** [sizeof(struct thread_context)] with the layout of an LP64 system:
    an 8-byte thread handle and pointer, a 16-byte [timeval], seven
    [int]s and a [bool] padded to 4 bytes, rounded up to a multiple of 8. *)
Definition sizeof_thread_context : Z := 64.

Definition PTRDIFF_MAX : Z := 2 ^ 63 - 1.

(** The argument of [malloc] at line 181: [threads] is converted to
    [size_t] and the product is taken in [size_t], 64 bits wide. *)
Definition allocation_size (threads : Z) : Z :=
  (sizeof_thread_context * threads) mod 2 ^ 64.

(** What the process sees of the outside world. *)
Record process : Type := mk_process {
  argv : list string;
  (** what [gettimeofday] stores at line 155 *)
  start_time : timeval;
  (** the schema connection and its two commands *)
  schema_conn_status : ConnStatusType;
  drop_status : ExecStatusType;
  create_status : ExecStatusType;
  (** whether the allocator has a block of that many bytes to give *)
  memory_available : Z -> bool;
  (** the value the i-th [pthread_create] and [pthread_join] return: 0 on
      success, an error number, which is positive, otherwise *)
  pthread_create_result : nat -> Z;
  pthread_join_result : nat -> Z;
  (** the world of the i-th thread *)
  worker_world : nat -> world
}.

Definition EAGAIN : Z := 11.

(** Whether [malloc] returns a block of [size] bytes: never for more than
    [PTRDIFF_MAX] bytes, which no allocation can supply, and else when
    the allocator has one. *)
Definition malloc_returns (p : process) (size : Z) : bool :=
  (size <=? PTRDIFF_MAX) && memory_available p size.

(** Whether the [malloc] of line 181 returns a block, for the number of
    threads the command line of the process asks for. *)
Definition malloc_succeeds (p : process) : bool :=
  match scan_arguments (tl (argv p)) defaults with
  | Some cfg => malloc_returns p (allocation_size (c_threads cfg))
  | None => false
  end.

Inductive exit_status : Type := EXIT_SUCCESS | EXIT_FAILURE.

Record main_result : Type := mk_main_result {
  status : exit_status;
  main_trace : list event;
  (** the array [thread_contexts] when [main] returns *)
  thread_contexts : list thread_context
}.

(** Lines 155-156. *)
Definition compute_finish_time (now : timeval) (seconds : Z) : timeval :=
  mk_timeval (tv_sec now + seconds) (tv_usec now).

(** Lines 192-200. *)
Definition initial_context (cfg : config) (finish : timeval) (i : nat)
  : thread_context :=
  mk_context (c_conn_info cfg) finish (c_queries_per_update cfg) (c_rows cfg)
    (c_ssi cfg) (Z.of_nat i) 0 0 (CInt.add (c_queries_per_update cfg) 1).

(** Lines 187-209: [None] is the [return EXIT_FAILURE] of line 207. *)
Fixpoint launch (p : process) (cfg : config) (finish : timeval)
  (todo i : nat) : list event * option (list thread_context) :=
  match todo with
  | O => ([], Some [])
  | S todo' =>
      let context := initial_context cfg finish i in
      if pthread_create_result p i <? 0 then
        ([pthread_create i; perror "pthread_create"], None)
      else
        let (tr, r) := launch p cfg finish todo' (S i) in
        (pthread_create i :: tr, option_map (cons context) r)
  end.

(** Lines 211-218.  Joining waits for the thread to return, so the context
    read afterwards is the one [thread_main] leaves.  A handle that
    [pthread_create] did not fill in, and counters of a thread the join did
    not wait for, are undefined. *)
Fixpoint join (p : process) (fuel : nat) (contexts : list thread_context)
  (i : nat) : outcome (list event * option (list thread_context)) :=
  match contexts with
  | [] => Returned ([], Some [])
  | context :: rest =>
      if pthread_create_result p i =? 0 then
        if pthread_join_result p i <? 0 then
          Returned ([pthread_join i; perror "pthread_join"], None)
        else if pthread_join_result p i =? 0 then
          '(context', _) <- thread_main (worker_world p i) context fuel ;;
          '(tr, r) <- join p fuel rest (S i) ;;
          Returned (pthread_join i :: tr, option_map (cons context') r)
        else Undefined
      else Undefined
  end.

(** Lines 220-226. *)
Definition count_up (contexts : list thread_context) : Z * Z :=
  fold_left
    (fun totals context =>
       (CInt.add (fst totals) (transactions context),
        CInt.add (snd totals) (failures context)))
    contexts (0, 0).

Definition main (p : process) (fuel : nat) : outcome main_result :=
  match scan_arguments (tl (argv p)) defaults with
  | None => Returned (mk_main_result EXIT_FAILURE [fprintf_stderr "<help wanted>"] [])
  | Some cfg =>
      let finish := compute_finish_time (start_time p) (c_seconds cfg) in
      let t0 := [gettimeofday; PQconnectdb (c_conn_info cfg)] in
      match schema_conn_status p with
      | CONNECTION_BAD =>
          Returned
            (mk_main_result EXIT_FAILURE
               (t0 ++ [fprintf_stderr "Failed to connect."]) [])
      | CONNECTION_OK =>
          let t1 := t0 ++ [PQexec DropTable] in
          if negb (ExecStatusType_eqb (drop_status p) PGRES_COMMAND_OK) then
            Returned
              (mk_main_result EXIT_FAILURE
                 (t1 ++ [fprintf_stderr "Failed: "; PQfinish]) [])
          else
            let t2 := t1 ++ [PQclear; PQexec (CreateTable (c_rows cfg))] in
            if negb (ExecStatusType_eqb (create_status p) PGRES_COMMAND_OK) then
              Returned
                (mk_main_result EXIT_FAILURE
                   (t2 ++ [fprintf_stderr "Failed: "; PQfinish]) [])
            else
              let t3 :=
                t2 ++ [PQclear; PQfinish;
                       malloc (allocation_size (c_threads cfg))] in
              if negb (malloc_returns p (allocation_size (c_threads cfg)))
              then
                Returned
                  (mk_main_result EXIT_FAILURE
                     (t3 ++ [fprintf_stderr "out of memory"]) [])
              else
                let threads := Z.to_nat (c_threads cfg) in
                match launch p cfg finish threads 0 with
                | (t4, None) =>
                    Returned (mk_main_result EXIT_FAILURE (t3 ++ t4) [])
                | (t4, Some contexts) =>
                    '(t5, r) <- join p fuel contexts 0 ;;
                    match r with
                    | None =>
                        Returned
                          (mk_main_result EXIT_FAILURE (t3 ++ t4 ++ t5) [])
                    | Some finals =>
                        let totals := count_up finals in
                        Returned
                          (mk_main_result EXIT_SUCCESS
                             (t3 ++ t4 ++ t5
                              ++ [printf_tps
                                    (mk_quotient (fst totals) (c_seconds cfg))
                                    (snd totals)])
                             finals)
                    end
                end
      end
  end.

(** ** Sample runs *)

Definition constant_rand : Z -> Z * Z := fun seed => (7, seed).

Definition late : timeval := mk_timeval 100 0.
Definition early : timeval := mk_timeval 0 0.

(** A world where everything succeeds and the clock passes the deadline at
    the fourth reading. *)
Definition calm_world : world :=
  mk_world CONNECTION_OK PGRES_COMMAND_OK constant_rand
    (fun n => if Nat.even n then PGRES_COMMAND_OK else PGRES_TUPLES_OK)
    (fun n => if Nat.ltb n 3 then early else late).

Definition sample_context (i : nat) : thread_context :=
  initial_context defaults (mk_timeval 60 0) i.

Definition calm_process (args : list string) : process :=
  mk_process ("petit-sibench"%string :: args) early CONNECTION_OK
    PGRES_COMMAND_OK PGRES_COMMAND_OK (fun _ => true) (fun _ => 0)
    (fun _ => 0) (fun _ => calm_world).

(** ** Reading traces *)

Definition is_workload (e : event) : bool :=
  match e with
  | PQexec (Update _) | PQexec Select => true
  | _ => false
  end.

Definition is_update (e : event) : bool :=
  match e with
  | PQexec (Update _) => true
  | _ => false
  end.

Definition is_gettimeofday (e : event) : bool :=
  match e with
  | gettimeofday => true
  | _ => false
  end.

(** The statements of the loop, in the order they were sent. *)
Definition workload (tr : list event) : list event := filter is_workload tr.

(** The number of passes through the loop body: each pass reads the clock
    once, and nothing else in [thread_main] does. *)
Definition iterations (tr : list event) : nat :=
  List.length (filter is_gettimeofday tr).

Definition count_updates (tr : list event) : nat :=
  List.length (filter is_update tr).

(** Whether a statement completed successfully, as lines 78 and 86 test it. *)
Definition succeeded (s : statement) (r : ExecStatusType) : bool :=
  match s with
  | Select => ExecStatusType_eqb r PGRES_TUPLES_OK
  | _ => ExecStatusType_eqb r PGRES_COMMAND_OK
  end.

Definition sum_Z (l : list Z) : Z := fold_right Z.add 0 l.

(** The fields of a context that [thread_main] only reads. *)
Definition same_parameters (a b : thread_context) : Prop :=
  conn_info a = conn_info b /\ finish_time a = finish_time b
  /\ queries_per_update a = queries_per_update b /\ rows a = rows b
  /\ ssi a = ssi b /\ thread_number a = thread_number b
  /\ cycle a = cycle b.

(** ** Notions used in the statements *)

(** Whether the pass with index [m] of the thread numbered [number] sends
    an update: the test of line 69 on the counter value of that pass. *)
Definition update_due (number cycle_length : Z) (m : nat) : bool :=
  match CInt.rem (CInt.wrap (number + Z.of_nat m)) cycle_length with
  | Some 0 => true
  | _ => false
  end.

(** The state in which [thread_main] enters the loop. *)
Definition entry_trace (context : thread_context) : list event :=
  [PQconnectdb (conn_info context); PQexec (SetIsolation (ssi context));
   PQclear].

Definition entry_state (context : thread_context) : loop_state :=
  mk_loop_state context (thread_number context)
    (CInt.to_unsigned (thread_number context)) (entry_trace context).

(** What holds at the head of the loop after [n] passes. *)
Definition loop_inv (w : world) (c0 : thread_context) (n : nat)
  (st : loop_state) : Prop :=
  same_parameters c0 (ls_context st)
  /\ ls_i st = CInt.wrap (thread_number c0 + Z.of_nat n)
  /\ transactions (ls_context st) = CInt.wrap (transactions c0 + Z.of_nat n)
  /\ (exists f, 0 <= f <= Z.of_nat n
                /\ failures (ls_context st) = CInt.wrap (failures c0 + f))
  /\ exists body,
       ls_trace st = entry_trace c0 ++ body
       /\ iterations body = n
       /\ map is_update (workload body)
          = map (update_due (thread_number c0) (cycle c0)) (seq 0 n)
       /\ (forall k, In (PQexec (Update k)) body ->
                     exists seed,
                       CInt.rem (fst (rand_r w seed)) (rows c0) = Some k)
       /\ ~ In PQfinish body.

(** The final context and trace of the sample run of thread 0. *)
Definition calm_final_0 : thread_context :=
  Eval vm_compute in
    match thread_main calm_world (sample_context 0) 10 with
    | Returned (c, _) => c
    | _ => sample_context 0
    end.

Definition calm_trace_0 : list event :=
  Eval vm_compute in
    match thread_main calm_world (sample_context 0) 10 with
    | Returned (_, tr) => tr
    | _ => []
    end.

(** The loop states a worker passes through: [after_passes w c0 n st] when
    [st] is the state after [n] passes through the loop body. *)
Inductive after_passes (w : world) (c0 : thread_context)
  : nat -> loop_state -> Prop :=
| passes_entry : after_passes w c0 0 (entry_state c0)
| passes_step n st st' stop :
    after_passes w c0 n st ->
    iteration w n st = Returned (st', stop) ->
    after_passes w c0 (S n) st'.

Definition one_row_config : config :=
  mk_config "dbname=postgres" 1 1 60 false 2.

(** A world whose clock is past the finish time from the start. *)
Definition overdue_world : world :=
  mk_world CONNECTION_OK PGRES_COMMAND_OK constant_rand
    (fun _ => PGRES_FATAL_ERROR) (fun _ => late).

(** What [main] does before it allocates the contexts. *)
Definition main_prefix (cfg : config) : list event :=
  [gettimeofday; PQconnectdb (c_conn_info cfg); PQexec DropTable; PQclear;
   PQexec (CreateTable (c_rows cfg)); PQclear; PQfinish;
   malloc (allocation_size (c_threads cfg))].

Definition report_of (cfg : config) (finals : list thread_context) : event :=
  printf_tps
    (mk_quotient (fst (count_up finals)) (c_seconds cfg))
    (snd (count_up finals)).

(** A process in which every [pthread_create] fails for lack of
    resources. *)
Definition exhausted_process : process :=
  mk_process ["petit-sibench"%string] early CONNECTION_OK PGRES_COMMAND_OK
    PGRES_COMMAND_OK (fun _ => true) (fun _ => EAGAIN) (fun _ => 0)
    (fun _ => calm_world).

Definition no_rows_config : config :=
  mk_config "dbname=postgres" 1 0 60 false 2.

Definition no_rows_process : process :=
  calm_process ["--rows"%string; "0"%string].

(** The sample process reports 8 transactions over 60 seconds. *)
Definition calm_result : main_result :=
  Eval vm_compute in
    match main (calm_process []) 10 with
    | Returned r => r
    | _ => mk_main_result EXIT_FAILURE [] []
    end.

(** The workers other than [j]. *)
Definition others (j threads : nat) : list nat :=
  filter (fun i => negb (Nat.eqb i j)) (seq 0 threads).

(** A world in which the server cannot be reached. *)
Definition unreachable_world : world :=
  mk_world CONNECTION_BAD PGRES_FATAL_ERROR constant_rand
    (fun _ => PGRES_FATAL_ERROR) (fun _ => early).

(** Two threads, the second of which cannot connect. *)
Definition one_down_process : process :=
  mk_process ["petit-sibench"%string] early CONNECTION_OK PGRES_COMMAND_OK
    PGRES_COMMAND_OK (fun _ => true) (fun _ => 0) (fun _ => 0)
    (fun i => if Nat.eqb i 1 then unreachable_world else calm_world).

(** The finish time of a run: lines 155-156 on the clock reading of
    [main] and the [--seconds] value. *)
Definition deadline (p : process) (cfg : config) : timeval :=
  compute_finish_time (start_time p) (c_seconds cfg).

(** What one pass through the loop body calls, in order. *)
Definition block (s : statement) : list event :=
  [PQexec s; PQclear; gettimeofday].

(** The statements of the loop a trace holds. *)
Definition statements_of (tr : list event) : list statement :=
  flat_map
    (fun e =>
       match e with
       | PQexec (Update k) => [Update k]
       | PQexec Select => [Select]
       | _ => []
       end)
    tr.

(** The keys of the updates among some statements, in order. *)
Definition update_keys (stmts : list statement) : list Z :=
  flat_map (fun s => match s with Update k => [k] | _ => [] end) stmts.

(** The seed after [k] calls of [rand_r]. *)
Fixpoint nth_seed (w : world) (seed : Z) (k : nat) : Z :=
  match k with
  | O => seed
  | S k' => snd (rand_r w (nth_seed w seed k'))
  end.

(** How many of the statements, sent in the passes from index [n] on, did
    not complete successfully. *)
Fixpoint failed_passes (w : world) (n : nat) (stmts : list statement) : nat :=
  match stmts with
  | [] => O
  | s :: rest =>
      ((if succeeded s (exec_status w n) then 0 else 1)
       + failed_passes w (S n) rest)%nat
  end.

(** What holds of the trace, the seed and the failure counter at the head
    of the loop after [n] passes. *)
Definition loop_shape (w : world) (c0 : thread_context) (n : nat)
  (st : loop_state) : Prop :=
  exists stmts,
    List.length stmts = n
    /\ ls_trace st = entry_trace c0 ++ flat_map block stmts
    /\ Forall (fun s => s = Select \/ exists k, s = Update k) stmts
    /\ ls_seed st
       = nth_seed w (CInt.to_unsigned (thread_number c0))
           (List.length (update_keys stmts))
    /\ update_keys stmts
       = map (fun k =>
                Z.rem
                  (fst (rand_r w
                          (nth_seed w (CInt.to_unsigned (thread_number c0)) k)))
                  (rows c0))
           (seq 0 (List.length (update_keys stmts)))
    /\ (update_keys stmts <> [] -> rows c0 <> 0)
    /\ CInt.wrap (failures (ls_context st))
       = CInt.wrap (failures c0 + Z.of_nat (failed_passes w 0 stmts))
    /\ same_parameters c0 (ls_context st).

(** The calls of the launch and join loops. *)
Definition is_thread_call (e : event) : bool :=
  match e with
  | pthread_create _ | pthread_join _ | perror _ => true
  | _ => false
  end.

Definition is_report (e : event) : bool :=
  match e with
  | printf_tps _ _ => true
  | _ => false
  end.

Definition is_PQfinish (e : event) : bool :=
  match e with
  | PQfinish => true
  | _ => false
  end.

(** A process whose [drop table] is refused. *)
Definition refused_process : process :=
  mk_process ["petit-sibench"%string] early CONNECTION_OK PGRES_FATAL_ERROR
    PGRES_COMMAND_OK (fun _ => true) (fun _ => 0) (fun _ => 0)
    (fun _ => calm_world).

(** A process whose second [pthread_create] returns a negative value. *)
Definition negative_process : process :=
  mk_process ["petit-sibench"%string] early CONNECTION_OK PGRES_COMMAND_OK
    PGRES_COMMAND_OK (fun _ => true) (fun i => if Nat.eqb i 1 then -1 else 0)
    (fun _ => 0) (fun _ => calm_world).

(** A process whose second [pthread_join] returns a negative value. *)
Definition unjoined_process : process :=
  mk_process ["petit-sibench"%string] early CONNECTION_OK PGRES_COMMAND_OK
    PGRES_COMMAND_OK (fun _ => true) (fun _ => 0)
    (fun i => if Nat.eqb i 1 then -1 else 0) (fun _ => calm_world).

(** The context thread [i] of the sample process leaves. *)
Definition calm_final (i : nat) : thread_context :=
  match thread_main calm_world (sample_context i) 10 with
  | Returned (c, _) => c
  | _ => sample_context i
  end.

Definition calm_trace (i : nat) : list event :=
  match thread_main calm_world (sample_context i) 10 with
  | Returned (_, tr) => tr
  | _ => []
  end.

(** * Properties *)

(** ** C integers *)

Lemma wrap_in_range (z : Z) : CInt.in_range z -> CInt.wrap z = z.
Proof.
  unfold CInt.in_range, CInt.wrap, CInt.INT_MIN, CInt.INT_MAX. intros H.
  rewrite Z.mod_small; lia.
Qed.

Lemma wrap_add_wrap (a b : Z) : CInt.wrap (CInt.wrap a + b) = CInt.wrap (a + b).
Proof.
  unfold CInt.wrap.
  replace ((a - CInt.INT_MIN) mod 2 ^ 32 + CInt.INT_MIN + b - CInt.INT_MIN)
    with ((a - CInt.INT_MIN) mod 2 ^ 32 + b) by lia.
  replace (a + b - CInt.INT_MIN) with ((a - CInt.INT_MIN) + b) by lia.
  rewrite Zplus_mod_idemp_l. reflexivity.
Qed.

Lemma rem_positive_divisor (a b : Z) :
  1 <= b -> CInt.rem a b = Some (Z.rem a b).
Proof.
  intros H. unfold CInt.rem.
  destruct (b =? 0) eqn:E0; [lia|].
  destruct (b =? -1) eqn:E1; [lia|].
  rewrite andb_false_r. reflexivity.
Qed.

Lemma rem_some (a b r : Z) : CInt.rem a b = Some r -> b <> 0 /\ r = Z.rem a b.
Proof.
  unfold CInt.rem. destruct (b =? 0) eqn:E0; simpl; [discriminate|].
  destruct ((a =? CInt.INT_MIN) && (b =? -1))%bool; [discriminate|].
  intros H. injection H as <-. split; [lia | reflexivity].
Qed.

(** ** One pass through the loop body *)

Lemma next_statement_inv w context i seed stmt expected seed' :
  next_statement w context i seed = Returned (stmt, expected, seed') ->
  exists r, CInt.rem i (cycle context) = Some r /\
    ((r = 0 /\ CInt.rem (fst (rand_r w seed)) (rows context)
                = Some (match stmt with Update k => k | _ => 0 end)
      /\ (exists k, stmt = Update k) /\ expected = PGRES_COMMAND_OK
      /\ seed' = snd (rand_r w seed))
     \/ (r <> 0 /\ stmt = Select /\ expected = PGRES_TUPLES_OK
         /\ seed' = seed)).
Proof.
  unfold next_statement.
  destruct (CInt.rem i (cycle context)) as [r|] eqn:Er; simpl; [|discriminate].
  intros H. exists r. split; [reflexivity|].
  destruct (r =? 0) eqn:E0.
  - destruct (rand_r w seed) as [value s'] eqn:Erand. simpl.
    destruct (CInt.rem value (rows context)) as [key|] eqn:Ek; simpl in H;
      [|discriminate].
    injection H as <- <- <-. left. repeat split; eauto. lia.
  - injection H as <- <- <-. right. repeat split; auto. lia.
Qed.

Lemma iteration_inv w n st st' stop :
  iteration w n st = Returned (st', stop) ->
  exists stmt expected seed',
    next_statement w (ls_context st) (ls_i st) (ls_seed st)
      = Returned (stmt, expected, seed')
    /\ ls_context st'
        = incr_transactions
            (if ExecStatusType_eqb (exec_status w n) expected
             then ls_context st else incr_failures (ls_context st))
    /\ ls_i st' = CInt.incr (ls_i st)
    /\ ls_seed st' = seed'
    /\ ls_trace st' = ls_trace st ++ [PQexec stmt; PQclear; gettimeofday]
    /\ stop = deadline_reached (clock w n) (finish_time (ls_context st)).
Proof.
  unfold iteration.
  destruct (next_statement w (ls_context st) (ls_i st) (ls_seed st))
    as [[[stmt expected] seed']| |] eqn:E; simpl; try discriminate.
  intros H. injection H as <- <-. exists stmt, expected, seed'.
  repeat split; try reflexivity.
  destruct (ExecStatusType_eqb (exec_status w n) expected); reflexivity.
Qed.

Lemma iteration_same_parameters w n st st' stop :
  iteration w n st = Returned (st', stop) ->
  same_parameters (ls_context st) (ls_context st').
Proof.
  intros H. apply iteration_inv in H.
  destruct H as (stmt & expected & seed' & _ & Hc & _).
  rewrite Hc. unfold same_parameters.
  destruct (ExecStatusType_eqb (exec_status w n) expected); simpl; tauto.
Qed.

(** The loop returns from a pass that ends in [break], reached through
    passes that did not; [P] is any property those passes keep. *)
Lemma loop_invariant w (P : nat -> loop_state -> Prop) :
  (forall n st st', P n st -> iteration w n st = Returned (st', false) ->
                    P (S n) st') ->
  forall fuel n st st',
    P n st -> loop w fuel n st = Returned st' ->
    exists N last, (n <= N)%nat /\ (N < n + fuel)%nat /\ P N last
                   /\ iteration w N last = Returned (st', true).
Proof.
  intros Hstep. induction fuel as [|fuel IH]; intros n st st' HP H;
    simpl in H; [discriminate|].
  destruct (iteration w n st) as [[st1 stop]| |] eqn:E; simpl in H;
    try discriminate.
  destruct stop.
  - injection H as <-. exists n, st. repeat split; auto; lia.
  - apply IH in H; [|eapply Hstep; eauto].
    destruct H as (N & last & H1 & H2 & H3 & H4).
    exists N, last. repeat split; auto; lia.
Qed.

(** ** The loop as a whole *)

Lemma loop_inv_entry w c0 :
  CInt.in_range (thread_number c0) -> CInt.in_range (transactions c0) ->
  CInt.in_range (failures c0) ->
  loop_inv w c0 0 (entry_state c0).
Proof.
  intros H1 H2 H3. unfold loop_inv, entry_state, same_parameters; simpl.
  rewrite !Z.add_0_r, !wrap_in_range by assumption.
  repeat split; auto.
  - exists 0. rewrite Z.add_0_r, wrap_in_range by assumption. lia.
  - exists []. split; [reflexivity|].
    repeat split; auto. intros k [].
Qed.

Lemma loop_inv_step w c0 n st st' stop :
  loop_inv w c0 n st -> iteration w n st = Returned (st', stop) ->
  loop_inv w c0 (S n) st'.
Proof.
  intros (Hp & Hi & Ht & (f & Hf & Hfail) & body & Htr & Hn & Hk & Hkeys & Hfin) H.
  pose proof (iteration_same_parameters _ _ _ _ _ H) as Hsame.
  apply iteration_inv in H.
  destruct H as (stmt & expected & seed' & Hnext & Hc & Hi' & _ & Htr' & _).
  assert (Hparams : same_parameters c0 (ls_context st')).
  { unfold same_parameters in *. intuition congruence. }
  assert (Hcycle : cycle (ls_context st) = cycle c0)
    by (unfold same_parameters in Hp; intuition congruence).
  assert (Hrows : rows (ls_context st) = rows c0)
    by (unfold same_parameters in Hp; intuition congruence).
  split; [exact Hparams|].
  split.
  { rewrite Hi', Hi. unfold CInt.incr. rewrite wrap_add_wrap. f_equal. lia. }
  split.
  { rewrite Hc.
    destruct (ExecStatusType_eqb (exec_status w n) expected); simpl;
      rewrite Ht; unfold CInt.incr; rewrite wrap_add_wrap; f_equal; lia. }
  split.
  { rewrite Hc.
    destruct (ExecStatusType_eqb (exec_status w n) expected); simpl.
    - exists f. split; [lia | exact Hfail].
    - exists (f + 1). split; [lia|].
      rewrite Hfail. unfold CInt.incr. rewrite wrap_add_wrap. f_equal. lia. }
  exists (body ++ [PQexec stmt; PQclear; gettimeofday]).
  apply next_statement_inv in Hnext.
  destruct Hnext as (r & Hr & Hcase).
  rewrite Hcycle, Hi in Hr.
  assert (Hdue : update_due (thread_number c0) (cycle c0) n
                 = is_update (PQexec stmt)).
  { unfold update_due. rewrite Hr.
    destruct Hcase as [(-> & _ & (k & ->) & _) | (Hr0 & -> & _)]; simpl; auto.
    destruct r; congruence. }
  assert (Hwork : is_workload (PQexec stmt) = true).
  { destruct Hcase as [(_ & _ & (k & ->) & _) | (_ & -> & _)]; reflexivity. }
  split; [rewrite Htr', Htr, app_assoc; reflexivity|].
  split.
  { unfold iterations in *. rewrite filter_app, length_app, Hn. simpl. lia. }
  split.
  { unfold workload. rewrite filter_app, map_app, seq_S, map_app.
    fold (workload body). rewrite Hk. cbn [filter].
    rewrite Hwork. cbn [is_workload map Nat.add]. rewrite Hdue. reflexivity. }
  split.
  { intros k Hin. apply in_app_or in Hin. destruct Hin as [Hin|Hin]; auto.
    simpl in Hin. destruct Hin as [Hin|[Hin|[Hin|[]]]]; try discriminate.
    injection Hin as ->.
    destruct Hcase as [(_ & Hkey & _) | (_ & Habs & _)]; [|discriminate].
    simpl in Hkey. rewrite Hrows in Hkey. eauto. }
  intros Hin. apply in_app_or in Hin. destruct Hin as [Hin|Hin]; auto.
  simpl in Hin. destruct Hin as [Hin|[Hin|[Hin|[]]]]; discriminate.
Qed.

Lemma after_passes_inv w c0 n st :
  CInt.in_range (thread_number c0) -> CInt.in_range (transactions c0) ->
  CInt.in_range (failures c0) ->
  after_passes w c0 n st -> loop_inv w c0 n st.
Proof.
  intros H1 H2 H3 H. induction H as [|n st st' stop _ IH Hit].
  - apply loop_inv_entry; assumption.
  - eapply loop_inv_step; eauto.
Qed.

(** The state the loop returns, for a context as [main] hands it over:
    it is the state after the first pass whose clock reading has reached
    the finish time. *)
Lemma loop_returned w c0 fuel st' :
  CInt.in_range (thread_number c0) -> CInt.in_range (transactions c0) ->
  CInt.in_range (failures c0) ->
  loop w fuel 0 (entry_state c0) = Returned st' ->
  exists N,
    (N < fuel)%nat /\ loop_inv w c0 (S N) st'
    /\ (forall m, (m < N)%nat ->
                  deadline_reached (clock w m) (finish_time c0) = false)
    /\ deadline_reached (clock w N) (finish_time c0) = true.
Proof.
  intros H1 H2 H3 H.
  apply (loop_invariant w
           (fun n st =>
              loop_inv w c0 n st
              /\ forall m, (m < n)%nat ->
                     deadline_reached (clock w m) (finish_time c0) = false))
    in H.
  - destruct H as (N & last & _ & Hlt & (Hinv & Hearly) & Hit).
    exists N. split; [lia|].
    split; [eapply loop_inv_step; eauto|].
    split; [exact Hearly|].
    apply iteration_inv in Hit.
    destruct Hit as (_ & _ & _ & _ & _ & _ & _ & _ & Hstop).
    destruct Hinv as ((_ & Hfin & _) & _). rewrite Hfin. auto.
  - intros n st st1 (HP & Hearly) Hit.
    split; [eapply loop_inv_step; eauto|].
    intros m Hm.
    destruct (Nat.eq_dec m n) as [->|Hne]; [|apply Hearly; lia].
    apply iteration_inv in Hit.
    destruct Hit as (_ & _ & _ & _ & _ & _ & _ & _ & Hstop).
    destruct HP as ((_ & Hfin & _) & _). rewrite Hfin. auto.
  - split; [apply loop_inv_entry; assumption|]. intros m Hm. lia.
Qed.

Lemma iteration_defined w n st :
  1 <= cycle (ls_context st) -> 1 <= rows (ls_context st) ->
  exists st',
    iteration w n st
    = Returned (st', deadline_reached (clock w n) (finish_time (ls_context st))).
Proof.
  intros Hc Hr. unfold iteration, next_statement.
  rewrite rem_positive_divisor by assumption. simpl.
  destruct (Z.rem (ls_i st) (cycle (ls_context st)) =? 0).
  - destruct (rand_r w (ls_seed st)) as [value seed'].
    rewrite rem_positive_divisor by assumption. simpl.
    destruct (ExecStatusType_eqb (exec_status w n) PGRES_COMMAND_OK);
      eexists; reflexivity.
  - simpl.
    destruct (ExecStatusType_eqb (exec_status w n) PGRES_TUPLES_OK);
      eexists; reflexivity.
Qed.

(** The loop returns exactly when it is given the fuel to reach the first
    pass whose clock reading has reached the finish time. *)
Lemma loop_terminates w c0 :
  1 <= cycle c0 -> 1 <= rows c0 ->
  forall N n st,
    same_parameters c0 (ls_context st) ->
    (forall m, (n <= m < n + N)%nat ->
               deadline_reached (clock w m) (finish_time c0) = false) ->
    deadline_reached (clock w (n + N)) (finish_time c0) = true ->
    forall fuel,
      ((N < fuel)%nat -> exists st', loop w fuel n st = Returned st')
      /\ ((fuel <= N)%nat -> loop w fuel n st = OutOfFuel).
Proof.
  intros Hc Hr. induction N as [|N IH]; intros n st Hp Hearly Hlate fuel.
  - split; [|intros Hle; replace fuel with O by lia; reflexivity].
    intros Hlt. destruct fuel as [|fuel]; [lia|]. simpl.
    destruct (iteration_defined w n st) as (st' & ->).
    + destruct Hp as (_ & _ & _ & _ & _ & _ & <-). exact Hc.
    + destruct Hp as (_ & _ & _ & <- & _). exact Hr.
    + simpl. destruct Hp as (_ & <- & _).
      rewrite Nat.add_0_r in Hlate. rewrite Hlate. eauto.
  - destruct fuel as [|fuel]; [split; [lia | reflexivity]|].
    simpl.
    destruct (iteration_defined w n st) as (st' & Hit).
    + destruct Hp as (_ & _ & _ & _ & _ & _ & <-). exact Hc.
    + destruct Hp as (_ & _ & _ & <- & _). exact Hr.
    + rewrite Hit. simpl.
      assert (Hfin : finish_time (ls_context st) = finish_time c0)
        by (destruct Hp as (_ & <- & _); reflexivity).
      rewrite Hfin, (Hearly n) by lia.
      assert (Hp' : same_parameters c0 (ls_context st')).
      { apply iteration_same_parameters in Hit.
        unfold same_parameters in *. intuition congruence. }
      destruct (IH (S n) st' Hp') with (fuel := fuel) as [Hyes Hno].
      * intros m Hm. apply Hearly. lia.
      * replace (S n + N)%nat with (n + S N)%nat by lia. exact Hlate.
      * split; intros H; [apply Hyes | apply Hno]; lia.
Qed.

Lemma thread_main_connected w context fuel :
  conn_status w = CONNECTION_OK ->
  isolation_status w = PGRES_COMMAND_OK ->
  thread_main w context fuel
  = (st <- loop w fuel 0 (entry_state context) ;;
     Returned (ls_context st, ls_trace st ++ [PQfinish])).
Proof. intros Hc Hi. unfold thread_main. rewrite Hc, Hi. reflexivity. Qed.

(** ** A whole run of [thread_main] *)

Lemma filter_entry_trace (f : event -> bool) c0 body :
  f (PQconnectdb (conn_info c0)) = false ->
  f (PQexec (SetIsolation (ssi c0))) = false ->
  f PQclear = false -> f PQfinish = false ->
  filter f (entry_trace c0 ++ body ++ [PQfinish]) = filter f body.
Proof.
  intros H1 H2 H3 H4. unfold entry_trace.
  rewrite !filter_app. cbn [filter]. rewrite H1, H2, H3, H4.
  simpl. apply app_nil_r.
Qed.

Lemma thread_main_returned w c0 fuel c' tr :
  conn_status w = CONNECTION_OK ->
  isolation_status w = PGRES_COMMAND_OK ->
  CInt.in_range (thread_number c0) -> CInt.in_range (transactions c0) ->
  CInt.in_range (failures c0) ->
  thread_main w c0 fuel = Returned (c', tr) ->
  exists N body,
    tr = entry_trace c0 ++ body ++ [PQfinish]
    /\ (N < fuel)%nat
    /\ iterations tr = S N
    /\ same_parameters c0 c'
    /\ transactions c' = CInt.wrap (transactions c0 + Z.of_nat (S N))
    /\ (exists f, 0 <= f <= Z.of_nat (S N)
                  /\ failures c' = CInt.wrap (failures c0 + f))
    /\ map is_update (workload tr)
       = map (update_due (thread_number c0) (cycle c0)) (seq 0 (S N))
    /\ (forall k, In (PQexec (Update k)) tr ->
                  exists seed,
                    CInt.rem (fst (rand_r w seed)) (rows c0) = Some k)
    /\ ~ In PQfinish body
    /\ (forall m, (m < N)%nat ->
                  deadline_reached (clock w m) (finish_time c0) = false)
    /\ deadline_reached (clock w N) (finish_time c0) = true.
Proof.
  intros Hc Hi H1 H2 H3 H.
  rewrite thread_main_connected in H by assumption.
  destruct (loop w fuel 0 (entry_state c0)) as [st'| |] eqn:E; simpl in H;
    try discriminate.
  injection H as <- <-.
  apply loop_returned in E; try assumption.
  destruct E as (N & Hlt & Hinv & Hearly & Hlate).
  destruct Hinv as (Hp & _ & Ht & Hf & body & Htr & Hn & Hk & Hkeys & Hfin).
  exists N, body. rewrite Htr, <- app_assoc.
  split; [reflexivity|]. split; [exact Hlt|].
  split; [unfold iterations in *; rewrite filter_entry_trace; auto|].
  split; [exact Hp|]. split; [exact Ht|]. split; [exact Hf|].
  split; [unfold workload in *; rewrite filter_entry_trace; auto|].
  split.
  { intros k Hin. apply in_app_or in Hin. destruct Hin as [Hin|Hin].
    - simpl in Hin. destruct Hin as [Hin|[Hin|[Hin|[]]]]; discriminate.
    - apply in_app_or in Hin. destruct Hin as [Hin|Hin]; auto.
      simpl in Hin. destruct Hin as [Hin|[]]; discriminate. }
  auto.
Qed.

(** ** The statement mix *)

Lemma update_due_plain (number c : Z) (m : nat) :
  0 <= number -> number + Z.of_nat m <= CInt.INT_MAX -> 1 <= c ->
  update_due number c m = ((number + Z.of_nat m) mod c =? 0).
Proof.
  intros H0 Hmax Hc. unfold update_due.
  rewrite wrap_in_range
    by (unfold CInt.in_range, CInt.INT_MIN, CInt.INT_MAX in *; lia).
  rewrite rem_positive_divisor by assumption.
  rewrite Z.rem_mod_nonneg by lia.
  destruct ((number + Z.of_nat m) mod c) eqn:E; reflexivity.
Qed.

Lemma filter_none {A} (f : A -> bool) (l : list A) :
  (forall y, In y l -> f y = false) -> filter f l = [].
Proof.
  induction l as [|a l IH]; intros H; [reflexivity|].
  simpl. rewrite (H a) by (simpl; auto). apply IH.
  intros y Hy. apply H. simpl. auto.
Qed.

Lemma filter_unique {A} (f : A -> bool) (x : A) (l : list A) :
  NoDup l -> In x l -> (forall y, In y l -> (f y = true <-> y = x)) ->
  filter f l = [x].
Proof.
  induction l as [|a l IH]; intros Hnd Hin Hf; [contradiction|].
  inversion Hnd as [|? ? Hnotin Hnd']; subst.
  assert (Hrest : forall y, In y l -> y <> a)
    by (intros y Hy ->; contradiction).
  simpl. destruct Hin as [->|Hin].
  - replace (f x) with true by (symmetry; apply Hf; simpl; auto).
    f_equal. apply filter_none. intros y Hy.
    destruct (f y) eqn:E; [|reflexivity].
    apply Hf in E; [|simpl; auto]. subst. contradiction.
  - destruct (f a) eqn:E.
    + apply Hf in E; [|simpl; auto]. subst. contradiction.
    + apply IH; auto. intros y Hy. apply Hf. simpl. auto.
Qed.

(** Among [c] consecutive counter values exactly one is a multiple of [c]. *)
Lemma one_multiple_per_window (a c : Z) (k : nat) :
  0 <= a -> 1 <= c ->
  List.length
    (filter (fun m => (a + Z.of_nat m) mod c =? 0) (seq k (Z.to_nat c)))
  = 1%nat.
Proof.
  intros Ha Hc.
  pose (j := (- (a + Z.of_nat k)) mod c).
  assert (Hj : 0 <= j < c) by (apply Z.mod_pos_bound; lia).
  rewrite (filter_unique _ (k + Z.to_nat j)%nat); [reflexivity| | |].
  - apply seq_NoDup.
  - apply in_seq. lia.
  - intros y Hy. apply in_seq in Hy. rewrite Z.eqb_eq.
    assert (Hsum : (a + Z.of_nat k + j) mod c = 0).
    { unfold j. rewrite Zplus_mod_idemp_r.
      replace (a + Z.of_nat k + - (a + Z.of_nat k)) with 0 by lia.
      apply Z.mod_0_l. lia. }
    split.
    + intros Hy0.
      assert (Hd : (Z.of_nat y - Z.of_nat k - j) mod c = 0).
      { replace (Z.of_nat y - Z.of_nat k - j)
          with ((a + Z.of_nat y) - (a + Z.of_nat k + j)) by lia.
        rewrite Zminus_mod, Hy0, Hsum. reflexivity. }
      apply Z.mod_divide in Hd; [|lia].
      destruct Hd as [q Hq].
      assert (q = 0) by nia. subst q. lia.
    + intros ->. rewrite <- Hsum. f_equal. lia.
Qed.

Lemma count_updates_map (l : list event) :
  count_updates l = List.length (filter (fun b : bool => b) (map is_update l)).
Proof.
  unfold count_updates. induction l as [|e l IH]; [reflexivity|].
  simpl. destruct (is_update e); simpl; rewrite IH; reflexivity.
Qed.

Lemma filter_map_swap {A B} (f : A -> B) (p : B -> bool) (l : list A) :
  filter p (map f l) = map f (filter (fun x => p (f x)) l).
Proof.
  induction l as [|a l IH]; [reflexivity|].
  simpl. destruct (p (f a)); simpl; rewrite IH; reflexivity.
Qed.

Lemma firstn_seq_le (n start len : nat) :
  (n <= len)%nat -> firstn n (seq start len) = seq start n.
Proof.
  intros H. replace len with (n + (len - n))%nat by lia.
  rewrite seq_app, firstn_app, length_seq, Nat.sub_diag. simpl.
  rewrite app_nil_r. apply firstn_all2. rewrite length_seq. lia.
Qed.

Lemma initial_context_ranges cfg fin i :
  Z.of_nat i <= CInt.INT_MAX ->
  CInt.in_range (thread_number (initial_context cfg fin i))
  /\ CInt.in_range (transactions (initial_context cfg fin i))
  /\ CInt.in_range (failures (initial_context cfg fin i)).
Proof.
  intros H. simpl. unfold CInt.in_range, CInt.INT_MIN, CInt.INT_MAX in *. lia.
Qed.

Lemma initial_context_cycle cfg fin i :
  0 <= c_queries_per_update cfg < CInt.INT_MAX ->
  cycle (initial_context cfg fin i) = c_queries_per_update cfg + 1.
Proof.
  intros H. simpl. unfold CInt.add. apply wrap_in_range.
  unfold CInt.in_range, CInt.INT_MIN, CInt.INT_MAX in *. lia.
Qed.

Lemma calm_run_0 :
  thread_main calm_world (initial_context defaults (mk_timeval 60 0) 0) 10
  = Returned (calm_final_0, calm_trace_0).
Proof. reflexivity. Defined.

(** C4. For every worker, with cycle length [queries_per_update + 1]: the
    counter starts at the thread number and grows by one per pass; the
    pass with index [n] sends an update exactly when the counter value
    [thread_number + n] is 0 modulo the cycle length and a select
    otherwise; and any window of cycle-length consecutive passes holds
    exactly one update. *)
Theorem C4_one_update_per_cycle w cfg fin i :
  0 <= c_queries_per_update cfg < CInt.INT_MAX ->
  cycle (initial_context cfg fin i) = c_queries_per_update cfg + 1
  /\ ls_i (entry_state (initial_context cfg fin i)) = Z.of_nat i
  /\ (forall n st,
        after_passes w (initial_context cfg fin i) n st ->
        Z.of_nat i + Z.of_nat n <= CInt.INT_MAX ->
        ls_i st = Z.of_nat i + Z.of_nat n
        /\ map is_update (workload (ls_trace st))
           = map (fun m => (Z.of_nat i + Z.of_nat m)
                             mod (c_queries_per_update cfg + 1) =? 0)
               (seq 0 n))
  /\ (forall fuel c' tr,
        conn_status w = CONNECTION_OK ->
        isolation_status w = PGRES_COMMAND_OK ->
        thread_main w (initial_context cfg fin i) fuel = Returned (c', tr) ->
        Z.of_nat i + Z.of_nat (iterations tr) <= CInt.INT_MAX ->
        List.length (workload tr) = iterations tr
        /\ (forall n, (n < iterations tr)%nat ->
              is_update (nth n (workload tr) PQclear)
              = ((Z.of_nat i + Z.of_nat n)
                   mod (c_queries_per_update cfg + 1) =? 0))
        /\ (forall k,
              (k + Z.to_nat (c_queries_per_update cfg + 1)
               <= iterations tr)%nat ->
              count_updates
                (firstn (Z.to_nat (c_queries_per_update cfg + 1))
                   (skipn k (workload tr)))
              = 1%nat)).
Proof.
  intros Hq.
  pose proof (initial_context_cycle cfg fin i Hq) as Hcycle.
  assert (Hdue : forall N m,
            Z.of_nat i + Z.of_nat N <= CInt.INT_MAX -> (m < N)%nat ->
            update_due (Z.of_nat i) (c_queries_per_update cfg + 1) m
            = ((Z.of_nat i + Z.of_nat m) mod (c_queries_per_update cfg + 1)
               =? 0)).
  { intros N m Hmax Hm. apply update_due_plain; lia. }
  split; [exact Hcycle|]. split; [reflexivity|]. split.
  { intros n st Hpasses Hmax.
    destruct (initial_context_ranges cfg fin i) as (R1 & R2 & R3); [lia|].
    apply after_passes_inv in Hpasses; try assumption.
    destruct Hpasses as (_ & Hi & _ & _ & body & Htr & _ & Hk & _).
    rewrite Hcycle in Hk.
    change (thread_number (initial_context cfg fin i)) with (Z.of_nat i)
      in Hi, Hk.
    split.
    - rewrite Hi. apply wrap_in_range.
      unfold CInt.in_range, CInt.INT_MIN, CInt.INT_MAX in *. lia.
    - rewrite Htr. unfold workload in *. rewrite filter_app. simpl.
      rewrite Hk. apply map_ext_in. intros m Hm. apply in_seq in Hm.
      apply (Hdue n); lia. }
  intros fuel c' tr Hc Hi H Hmax.
  apply thread_main_returned in H; try assumption;
    try (simpl; unfold CInt.in_range, CInt.INT_MIN, CInt.INT_MAX in *; lia).
  destruct H as (N & body & _ & _ & Hn & _ & _ & _ & Hk & _).
  rewrite Hcycle in Hk. change (thread_number (initial_context cfg fin i))
    with (Z.of_nat i) in Hk.
  rewrite Hn in *.
  assert (Hlen : List.length (workload tr) = S N).
  { rewrite <- (length_map is_update), Hk, length_map, length_seq.
    reflexivity. }
  split; [exact Hlen|]. split.
  - intros n Hlt.
    rewrite <- (map_nth is_update), Hk.
    rewrite (nth_indep _ _
               (update_due (Z.of_nat i) (c_queries_per_update cfg + 1) 0))
      by (rewrite length_map, length_seq; exact Hlt).
    rewrite map_nth, seq_nth by exact Hlt. apply (Hdue (S N)); [lia|].
    simpl. exact Hlt.
  - intros k Hwin.
    rewrite count_updates_map, <- firstn_map, <- skipn_map, Hk.
    rewrite skipn_map, firstn_map, skipn_seq, firstn_seq_le by lia.
    rewrite filter_map_swap, length_map.
    rewrite (filter_ext_in _
               (fun m => (Z.of_nat i + Z.of_nat m)
                           mod (c_queries_per_update cfg + 1) =? 0)).
    + apply one_multiple_per_window; lia.
    + intros m Hm. apply in_seq in Hm. apply (Hdue (S N)); lia.
Qed.

Lemma C4_one_update_per_cycle_witness :
  count_updates (firstn 2 (skipn 1 (workload calm_trace_0))) = 1%nat
  /\ is_update (nth 2 (workload calm_trace_0) PQclear) = true.
Proof.
  destruct (C4_one_update_per_cycle calm_world defaults (mk_timeval 60 0) 0)
    as (_ & _ & _ & H).
  - simpl. unfold CInt.INT_MAX. lia.
  - destruct (H 10%nat calm_final_0 calm_trace_0 eq_refl eq_refl calm_run_0)
      as (_ & Hnth & Hwin).
    + vm_compute. discriminate.
    + split.
      * apply (Hwin 1%nat). vm_compute. lia.
      * apply (Hnth 2%nat). vm_compute. lia.
Defined.

(** ** Counters *)

Lemma iteration_counters w n st st' stop :
  iteration w n st = Returned (st', stop) ->
  exists stmt,
    ls_trace st' = ls_trace st ++ [PQexec stmt; PQclear; gettimeofday]
    /\ transactions (ls_context st')
       = CInt.incr (transactions (ls_context st))
    /\ failures (ls_context st')
       = if succeeded stmt (exec_status w n)
         then failures (ls_context st)
         else CInt.incr (failures (ls_context st)).
Proof.
  intros H. apply iteration_inv in H.
  destruct H as (stmt & expected & seed' & Hnext & Hc & _ & _ & Htr & _).
  exists stmt. split; [exact Htr|].
  apply next_statement_inv in Hnext.
  destruct Hnext as (r & _ & [(_ & _ & (k & ->) & -> & _) | (_ & -> & -> & _)]);
    rewrite Hc; simpl;
    destruct (ExecStatusType_eqb (exec_status w n) _); auto.
Qed.

(** C5. Every pass through the loop increments [transactions] exactly
    once whatever the statement's status, and [failures] exactly when the
    statement did not complete successfully; hence after any number of
    passes, and when the worker returns, [transactions] is the number of
    passes made and [failures] is at most [transactions]. *)
Theorem C5_counters w cfg fin i :
  Z.of_nat i <= CInt.INT_MAX ->
  (forall n st st' stop,
     iteration w n st = Returned (st', stop) ->
     exists stmt,
       ls_trace st' = ls_trace st ++ [PQexec stmt; PQclear; gettimeofday]
       /\ transactions (ls_context st')
          = CInt.incr (transactions (ls_context st))
       /\ failures (ls_context st')
          = if succeeded stmt (exec_status w n)
            then failures (ls_context st)
            else CInt.incr (failures (ls_context st)))
  /\ (forall n st,
        after_passes w (initial_context cfg fin i) n st ->
        Z.of_nat n <= CInt.INT_MAX ->
        transactions (ls_context st) = Z.of_nat n
        /\ 0 <= failures (ls_context st) <= transactions (ls_context st))
  /\ (forall fuel c' tr,
        thread_main w (initial_context cfg fin i) fuel = Returned (c', tr) ->
        Z.of_nat (iterations tr) <= CInt.INT_MAX ->
        transactions c' = Z.of_nat (iterations tr)
        /\ 0 <= failures c' <= transactions c').
Proof.
  intros Hi.
  destruct (initial_context_ranges cfg fin i Hi) as (R1 & R2 & R3).
  split; [intros n st st' stop; apply iteration_counters|].
  assert (Hcount : forall n st,
            loop_inv w (initial_context cfg fin i) n st ->
            Z.of_nat n <= CInt.INT_MAX ->
            transactions (ls_context st) = Z.of_nat n
            /\ 0 <= failures (ls_context st) <= transactions (ls_context st)).
  { intros n st (_ & _ & Ht & (f & Hf & Hfail) & _) Hmax.
    simpl in Ht, Hfail.
    rewrite wrap_in_range in Ht, Hfail
      by (unfold CInt.in_range, CInt.INT_MIN, CInt.INT_MAX in *; lia).
    lia. }
  split.
  - intros n st Hreach Hmax. apply Hcount; [|exact Hmax].
    apply after_passes_inv; assumption.
  - intros fuel c' tr H Hmax.
    unfold thread_main in H.
    destruct (conn_status w) eqn:Ec.
    + destruct (ExecStatusType_eqb (isolation_status w) PGRES_COMMAND_OK)
        eqn:Eiso.
      * destruct (loop w fuel 0 _) as [st'| |] eqn:E; simpl in H;
          try discriminate.
        injection H as <- <-.
        apply loop_returned in E; try assumption.
        destruct E as (N & _ & Hinv & _).
        assert (Hiter : iterations (ls_trace st' ++ [PQfinish]) = S N).
        { destruct Hinv as (_ & _ & _ & _ & body & -> & Hn & _).
          rewrite <- app_assoc. unfold iterations in *.
          rewrite filter_entry_trace; auto. }
        rewrite Hiter in *. apply Hcount; assumption.
      * injection H as <- <-. simpl. lia.
    + injection H as <- <-. simpl. lia.
Qed.

Lemma C5_counters_witness :
  transactions calm_final_0 = 4 /\ 0 <= failures calm_final_0 <= 4.
Proof.
  destruct (C5_counters calm_world defaults (mk_timeval 60 0) 0) as (_ & _ & H).
  - vm_compute. discriminate.
  - apply (H 10%nat calm_final_0 calm_trace_0 calm_run_0).
    vm_compute. discriminate.
Defined.

(** ** The key of an update *)

(** What line 76 computes: for [rows >= 1] and a value of [rand_r], which
    is never negative, a key between 0 and [rows - 1]. *)
Lemma update_keys_range w c0 fuel c' tr :
  (forall seed, 0 <= fst (rand_r w seed)) ->
  1 <= rows c0 ->
  CInt.in_range (thread_number c0) -> CInt.in_range (transactions c0) ->
  CInt.in_range (failures c0) ->
  thread_main w c0 fuel = Returned (c', tr) ->
  forall k, In (PQexec (Update k)) tr -> 0 <= k <= rows c0 - 1.
Proof.
  intros Hrand Hrows R1 R2 R3 H k Hin.
  unfold thread_main in H.
  destruct (conn_status w) eqn:Ec.
  - destruct (ExecStatusType_eqb (isolation_status w) PGRES_COMMAND_OK) eqn:Ei.
    + assert (Hiso : isolation_status w = PGRES_COMMAND_OK)
        by (destruct (isolation_status w); try discriminate; reflexivity).
      assert (Hrun : thread_main w c0 fuel = Returned (c', tr))
        by (unfold thread_main; rewrite Ec, Ei; exact H).
      apply thread_main_returned in Hrun; try assumption.
      destruct Hrun as (N & body & _ & _ & _ & _ & _ & _ & _ & Hkeys & _).
      destruct (Hkeys k Hin) as (seed & Hk).
      apply rem_some in Hk. destruct Hk as (_ & ->).
      specialize (Hrand seed).
      rewrite Z.rem_mod_nonneg by lia.
      pose proof (Z.mod_pos_bound (fst (rand_r w seed)) (rows c0)). lia.
    + injection H as <- <-. simpl in Hin.
      destruct Hin as [Hin|[Hin|[Hin|[Hin|[]]]]]; discriminate.
  - injection H as <- <-. simpl in Hin.
    destruct Hin as [Hin|[Hin|[]]]; discriminate.
Qed.

(** C1. With [--rows 1] the table holds the single key 1, and the first
    update of thread 0 asks for key 0, whatever [rand_r] returns: the key
    of line 76 is [rand_r(&seed) % rows], between 0 and [rows - 1], not
    between 1 and [rows]. *)
Theorem C1_update_targets_key_zero
  (r : Z -> Z * Z) (results : nat -> ExecStatusType) (fin : timeval) :
  exists c',
    thread_main
      (mk_world CONNECTION_OK PGRES_COMMAND_OK r results
         (fun _ => mk_timeval (tv_sec fin + 1) 0))
      (initial_context one_row_config fin 0) 1
    = Returned
        (c',
         [PQconnectdb "dbname=postgres"; PQexec (SetIsolation false); PQclear;
          PQexec (Update 0); PQclear; gettimeofday; PQfinish])
    /\ rows (initial_context one_row_config fin 0) = 1
    /\ ~ (1 <= 0 <= rows (initial_context one_row_config fin 0)).
Proof.
  assert (Hlate : deadline_reached (mk_timeval (tv_sec fin + 1) 0) fin = true).
  { unfold deadline_reached. simpl.
    replace (tv_sec fin + 1 >? tv_sec fin) with true; [reflexivity|].
    symmetry. apply Z.gtb_lt. lia. }
  assert (Hkey : forall value, CInt.rem value 1 = Some 0).
  { intros value. rewrite rem_positive_divisor by lia.
    rewrite Z.rem_1_r. reflexivity. }
  unfold thread_main, loop, iteration, next_statement.
  cbn [conn_status isolation_status ExecStatusType_eqb ls_context ls_i
       ls_seed ls_trace rand_r clock exec_status].
  change (cycle (initial_context one_row_config fin 0)) with (CInt.add 1 1).
  change (rows (initial_context one_row_config fin 0)) with 1.
  change (thread_number (initial_context one_row_config fin 0)) with 0.
  change (CInt.rem 0 (CInt.add 1 1)) with (Some 0).
  cbn [of_option bind Z.eqb].
  destruct (r (CInt.to_unsigned 0)) as [value seed'].
  rewrite Hkey. cbn [of_option bind].
  destruct (ExecStatusType_eqb (results 0%nat) PGRES_COMMAND_OK);
    cbn [incr_transactions incr_failures finish_time initial_context];
    rewrite Hlate; cbn [bind ls_context ls_trace];
    (eexists; split; [reflexivity | split; [reflexivity | lia]]).
Qed.

(** ** Releasing the connection *)

(** Once connected, every return of [thread_main] calls [PQfinish], once
    and last. *)
Lemma thread_main_finishes_when_connected w c0 fuel c' tr :
  conn_status w = CONNECTION_OK ->
  CInt.in_range (thread_number c0) -> CInt.in_range (transactions c0) ->
  CInt.in_range (failures c0) ->
  thread_main w c0 fuel = Returned (c', tr) ->
  exists before, tr = before ++ [PQfinish] /\ ~ In PQfinish before.
Proof.
  intros Hc R1 R2 R3 H.
  destruct (ExecStatusType_eqb (isolation_status w) PGRES_COMMAND_OK) eqn:Ei.
  - assert (Hiso : isolation_status w = PGRES_COMMAND_OK)
      by (destruct (isolation_status w); try discriminate; reflexivity).
    apply thread_main_returned in H; try assumption.
    destruct H as (N & body & -> & _ & _ & _ & _ & _ & _ & _ & Hfin & _).
    exists (entry_trace c0 ++ body). rewrite app_assoc. split; [reflexivity|].
    intros Hin. apply in_app_or in Hin. destruct Hin as [Hin|Hin]; auto.
    simpl in Hin. destruct Hin as [Hin|[Hin|[Hin|[]]]]; discriminate.
  - unfold thread_main in H. rewrite Hc, Ei in H. injection H as <- <-.
    simpl.
    match goal with
    | |- exists before, [?a; ?b; ?c; PQfinish] = _ /\ _ => exists [a; b; c]
    end.
    split; [reflexivity|].
    simpl. intros [Hin|[Hin|[Hin|[]]]]; discriminate.
Qed.

(** C2. When the connection fails, [thread_main] returns at line 51
    without calling [PQfinish] on the connection object [PQconnectdb]
    returned: that exit path does not release it. *)
Theorem C2_connect_failure_skips_PQfinish
  (iso : ExecStatusType) (r : Z -> Z * Z) (results : nat -> ExecStatusType)
  (readings : nat -> timeval) (context : thread_context) (fuel : nat) :
  exists tr,
    thread_main (mk_world CONNECTION_BAD iso r results readings) context fuel
    = Returned (context, tr)
    /\ In (PQconnectdb (conn_info context)) tr
    /\ ~ In PQfinish tr.
Proof.
  eexists. split; [reflexivity|]. simpl. split; [auto|].
  intros [H|[H|[]]]; discriminate.
Qed.

(** ** Leaving the loop *)

Lemma same_parameters_refl c : same_parameters c c.
Proof. unfold same_parameters. tauto. Qed.

Lemma same_parameters_trans a b c :
  same_parameters a b -> same_parameters b c -> same_parameters a c.
Proof. unfold same_parameters. intuition congruence. Qed.

(** [thread_main] writes to the two counters of its context only. *)
Lemma thread_main_same_parameters w c0 fuel c' tr :
  thread_main w c0 fuel = Returned (c', tr) -> same_parameters c0 c'.
Proof.
  unfold thread_main. intros H.
  destruct (conn_status w);
    [destruct (ExecStatusType_eqb (isolation_status w) PGRES_COMMAND_OK)|];
    try (injection H as <- <-; apply same_parameters_refl).
  destruct (loop w fuel 0 _) as [st'| |] eqn:E; simpl in H; try discriminate.
  injection H as <- <-.
  apply (loop_invariant w (fun _ st => same_parameters c0 (ls_context st)))
    in E.
  - destruct E as (N & last & _ & _ & Hp & Hit).
    eapply same_parameters_trans; [exact Hp|].
    eapply iteration_same_parameters; eauto.
  - intros n st st1 Hp Hit.
    eapply same_parameters_trans; [exact Hp|].
    eapply iteration_same_parameters; eauto.
  - apply same_parameters_refl.
Qed.

(** The first pass sends its statement before the clock is read for the
    first time. *)
Lemma first_pass_precedes_clock w c0 fuel c' tr :
  conn_status w = CONNECTION_OK ->
  isolation_status w = PGRES_COMMAND_OK ->
  thread_main w c0 fuel = Returned (c', tr) ->
  exists stmt rest,
    tr = entry_trace c0 ++ PQexec stmt :: PQclear :: gettimeofday :: rest.
Proof.
  intros Hc Hi H. rewrite thread_main_connected in H by assumption.
  destruct (loop w fuel 0 (entry_state c0)) as [st'| |] eqn:E; simpl in H;
    try discriminate.
  injection H as <- <-.
  apply (loop_invariant w
           (fun n st =>
              st = entry_state c0
              \/ exists stmt rest,
                   ls_trace st
                   = entry_trace c0
                       ++ PQexec stmt :: PQclear :: gettimeofday :: rest))
    in E.
  - destruct E as (N & last & _ & _ & HP & Hit).
    apply iteration_inv in Hit.
    destruct Hit as (stmt & _ & _ & _ & _ & _ & _ & Htr & _).
    rewrite Htr. destruct HP as [->|(s0 & rest & ->)].
    + exists stmt, [PQfinish]. simpl. reflexivity.
    + exists s0, (rest ++ [PQexec stmt; PQclear; gettimeofday] ++ [PQfinish]).
      rewrite <- !app_assoc. reflexivity.
  - intros n st st1 HP Hit. right.
    apply iteration_inv in Hit.
    destruct Hit as (stmt & _ & _ & _ & _ & _ & _ & Htr & _).
    rewrite Htr. destruct HP as [->|(s0 & rest & ->)].
    + exists stmt, []. reflexivity.
    + exists s0, (rest ++ [PQexec stmt; PQclear; gettimeofday]).
      rewrite <- !app_assoc. reflexivity.
  - left. reflexivity.
Qed.

(** A connected worker returns exactly when it has the fuel to reach the
    first pass whose clock reading has reached the finish time, and it
    has then made the passes up to that one and no more. *)
Lemma worker_exits_at_deadline w c0 N :
  conn_status w = CONNECTION_OK ->
  isolation_status w = PGRES_COMMAND_OK ->
  1 <= cycle c0 -> 1 <= rows c0 ->
  CInt.in_range (thread_number c0) -> CInt.in_range (transactions c0) ->
  CInt.in_range (failures c0) ->
  (forall m, (m < N)%nat ->
             deadline_reached (clock w m) (finish_time c0) = false) ->
  deadline_reached (clock w N) (finish_time c0) = true ->
  forall fuel,
    ((N < fuel)%nat ->
     exists c' tr,
       thread_main w c0 fuel = Returned (c', tr)
       /\ iterations tr = S N
       /\ transactions c' = CInt.wrap (transactions c0 + Z.of_nat (S N))
       /\ finish_time c' = finish_time c0)
    /\ ((fuel <= N)%nat -> thread_main w c0 fuel = OutOfFuel).
Proof.
  intros Hc Hi Hcycle Hrows R1 R2 R3 Hearly Hlate fuel.
  destruct (loop_terminates w c0 Hcycle Hrows N 0 (entry_state c0))
    with (fuel := fuel) as [Hyes Hno].
  - apply same_parameters_refl.
  - intros m Hm. apply Hearly. lia.
  - exact Hlate.
  - split.
    + intros Hlt. destruct (Hyes Hlt) as (st' & Hloop).
      assert (Hrun : thread_main w c0 fuel
                     = Returned (ls_context st', ls_trace st' ++ [PQfinish])).
      { rewrite thread_main_connected by assumption. rewrite Hloop.
        reflexivity. }
      exists (ls_context st'), (ls_trace st' ++ [PQfinish]).
      split; [exact Hrun|].
      apply thread_main_returned in Hrun; try assumption.
      destruct Hrun as (N' & body & _ & _ & Hn & Hp & Ht & _ & _ & _ & _
                        & Hearly' & Hlate').
      assert (N' = N).
      { destruct (Nat.lt_trichotomy N' N) as [Hlt'|[Heq|Hgt]]; [|exact Heq|].
        - rewrite (Hearly N' Hlt') in Hlate'. discriminate.
        - rewrite (Hearly' N Hgt) in Hlate. discriminate. }
      subst N'. split; [exact Hn|]. split; [exact Ht|].
      destruct Hp as (_ & <- & _). reflexivity.
    + intros Hle. rewrite thread_main_connected by assumption.
      rewrite (Hno Hle). reflexivity.
Qed.

(** C10. A worker that connected and set its isolation level makes one
    pass through the loop body, statement and counter updates, before the
    finish time is consulted for the first time: whenever it returns its
    [transactions] is at least 1, and when the finish time has passed
    already at the first reading it returns with [transactions] equal
    to 1. *)
Theorem C10_one_pass_before_deadline w c0 :
  conn_status w = CONNECTION_OK ->
  isolation_status w = PGRES_COMMAND_OK ->
  CInt.in_range (thread_number c0) -> transactions c0 = 0 ->
  CInt.in_range (failures c0) ->
  (forall fuel c' tr,
     thread_main w c0 fuel = Returned (c', tr) ->
     Z.of_nat (iterations tr) <= CInt.INT_MAX ->
     1 <= transactions c'
     /\ exists stmt rest,
          tr = entry_trace c0 ++ PQexec stmt :: PQclear :: gettimeofday :: rest)
  /\ (1 <= cycle c0 -> 1 <= rows c0 ->
      deadline_reached (clock w 0) (finish_time c0) = true ->
      forall fuel,
        exists c' tr,
          thread_main w c0 (S fuel) = Returned (c', tr)
          /\ iterations tr = 1%nat /\ transactions c' = 1).
Proof.
  intros Hc Hi R1 Ht0 R3.
  assert (R2 : CInt.in_range (transactions c0))
    by (rewrite Ht0; unfold CInt.in_range, CInt.INT_MIN, CInt.INT_MAX; lia).
  split.
  - intros fuel c' tr H Hmax. split.
    + apply thread_main_returned in H; try assumption.
      destruct H as (N & body & _ & _ & Hn & _ & Ht & _).
      rewrite Hn in Hmax. rewrite Ht, Ht0.
      rewrite wrap_in_range
        by (unfold CInt.in_range, CInt.INT_MIN, CInt.INT_MAX in *; lia).
      lia.
    + eapply first_pass_precedes_clock; eauto.
  - intros Hcycle Hrows Hlate fuel.
    destruct (worker_exits_at_deadline w c0 0%nat Hc Hi Hcycle Hrows R1 R2 R3)
      with (fuel := S fuel) as [Hyes _];
      [intros m Hm; lia | exact Hlate |].
    destruct Hyes as (c' & tr & Hrun & Hn & Ht & _); [lia|].
    exists c', tr. split; [exact Hrun|]. split; [exact Hn|].
    rewrite Ht, Ht0. reflexivity.
Qed.

Lemma C10_one_pass_before_deadline_witness :
  exists c' tr,
    thread_main overdue_world (sample_context 1) 1 = Returned (c', tr)
    /\ iterations tr = 1%nat /\ transactions c' = 1.
Proof.
  destruct (C10_one_pass_before_deadline overdue_world (sample_context 1))
    as (_ & H).
  - reflexivity.
  - reflexivity.
  - vm_compute. split; discriminate.
  - reflexivity.
  - vm_compute. split; discriminate.
  - apply (H ltac:(vm_compute; discriminate) ltac:(vm_compute; discriminate)
             eq_refl 0%nat).
Defined.

(** ** The driver: launching, joining, counting up *)

Lemma wrap_range (z : Z) : CInt.in_range (CInt.wrap z).
Proof.
  unfold CInt.in_range, CInt.wrap, CInt.INT_MIN, CInt.INT_MAX.
  pose proof (Z.mod_pos_bound (z - -2147483648) (2 ^ 32)). lia.
Qed.

Lemma count_up_from (l : list thread_context) (a b : Z) :
  CInt.in_range a -> CInt.in_range b ->
  fold_left
    (fun totals context =>
       (CInt.add (fst totals) (transactions context),
        CInt.add (snd totals) (failures context)))
    l (a, b)
  = (CInt.wrap (a + sum_Z (map transactions l)),
     CInt.wrap (b + sum_Z (map failures l))).
Proof.
  revert a b. induction l as [|c l IH]; intros a b Ha Hb; simpl.
  - rewrite !Z.add_0_r, !wrap_in_range by assumption. reflexivity.
  - rewrite IH by apply wrap_range. unfold CInt.add.
    rewrite !wrap_add_wrap, !Z.add_assoc. reflexivity.
Qed.

(** The totals of lines 220-226 are the sums of the counters, reduced to
    an [int]. *)
Lemma count_up_sums (l : list thread_context) :
  count_up l
  = (CInt.wrap (sum_Z (map transactions l)),
     CInt.wrap (sum_Z (map failures l))).
Proof.
  unfold count_up. rewrite count_up_from; [reflexivity| |];
    unfold CInt.in_range, CInt.INT_MIN, CInt.INT_MAX; lia.
Qed.

(** The launch loop goes through when no [pthread_create] returns a
    negative value, and only then. *)
Lemma launch_completes p cfg fin todo i :
  (forall j, (i <= j < i + todo)%nat -> 0 <= pthread_create_result p j) ->
  launch p cfg fin todo i
  = (map pthread_create (seq i todo),
     Some (map (initial_context cfg fin) (seq i todo))).
Proof.
  revert i. induction todo as [|todo IH]; intros i H; [reflexivity|].
  simpl. destruct (pthread_create_result p i <? 0) eqn:E.
  - apply Z.ltb_lt in E. specialize (H i). lia.
  - rewrite IH; [reflexivity|]. intros j Hj. apply H. lia.
Qed.

Lemma launch_inv p cfg fin todo i tr contexts :
  launch p cfg fin todo i = (tr, Some contexts) ->
  tr = map pthread_create (seq i todo)
  /\ contexts = map (initial_context cfg fin) (seq i todo).
Proof.
  revert i tr contexts.
  induction todo as [|todo IH]; intros i tr contexts H; simpl in H.
  - injection H as <- <-. split; reflexivity.
  - destruct (pthread_create_result p i <? 0); [discriminate|].
    destruct (launch p cfg fin todo (S i)) as [tr' [cs|]] eqn:E;
      simpl in H; [|discriminate].
    injection H as <- <-. destruct (IH _ _ _ E) as (-> & ->).
    split; reflexivity.
Qed.

Lemma launch_aborts p cfg fin todo i j :
  (i <= j < i + todo)%nat -> pthread_create_result p j < 0 ->
  snd (launch p cfg fin todo i) = None.
Proof.
  revert i. induction todo as [|todo IH]; intros i Hj Hneg; [lia|].
  simpl. destruct (pthread_create_result p i <? 0) eqn:E; [reflexivity|].
  destruct (Nat.eq_dec j i) as [->|Hne]; [apply Z.ltb_ge in E; lia|].
  specialize (IH (S i) ltac:(lia) Hneg).
  destruct (launch p cfg fin todo (S i)) as [tr r]. simpl in *.
  rewrite IH. reflexivity.
Qed.

Lemma nth_error_map_seq {A} (f : nat -> A) (n k : nat) (x : A) :
  nth_error (map f (seq 0 n)) k = Some x -> (k < n)%nat /\ x = f k.
Proof.
  intros H.
  assert (Hk : (k < n)%nat).
  { assert (Hsome : nth_error (map f (seq 0 n)) k <> None) by congruence.
    apply nth_error_Some in Hsome.
    rewrite length_map, length_seq in Hsome. exact Hsome. }
  split; [exact Hk|].
  rewrite (nth_error_nth' _ (f 0%nat)) in H
    by (rewrite length_map, length_seq; exact Hk).
  rewrite map_nth, seq_nth in H by exact Hk. simpl in H. congruence.
Qed.

(** The join loop hands back the contexts the threads leave. *)
Lemma join_completes p fuel (final : nat -> thread_context) contexts :
  forall i,
    (forall k c, nth_error contexts k = Some c ->
                 pthread_create_result p (i + k) = 0
                 /\ pthread_join_result p (i + k) = 0
                 /\ exists tr,
                      thread_main (worker_world p (i + k)) c fuel
                      = Returned (final (i + k)%nat, tr)) ->
    join p fuel contexts i
    = Returned (map pthread_join (seq i (List.length contexts)),
                Some (map final (seq i (List.length contexts)))).
Proof.
  induction contexts as [|c contexts IH]; intros i H; [reflexivity|].
  destruct (H 0%nat c eq_refl) as (Hcreate & Hjoin & tr & Hrun).
  rewrite Nat.add_0_r in *.
  simpl. rewrite Hcreate, Hjoin, Hrun. simpl.
  rewrite IH; [reflexivity|].
  intros k c1 Hk. specialize (H (S k) c1 Hk).
  replace (i + S k)%nat with (S i + k)%nat in H by lia. exact H.
Qed.

Lemma join_inv p fuel contexts :
  forall i tr finals,
    join p fuel contexts i = Returned (tr, Some finals) ->
    tr = map pthread_join (seq i (List.length contexts))
    /\ List.length finals = List.length contexts
    /\ forall k c c',
         nth_error contexts k = Some c -> nth_error finals k = Some c' ->
         pthread_create_result p (i + k) = 0
         /\ pthread_join_result p (i + k) = 0
         /\ exists t,
              thread_main (worker_world p (i + k)) c fuel = Returned (c', t).
Proof.
  induction contexts as [|c contexts IH]; intros i tr finals H; simpl in H.
  - injection H as <- <-. split; [reflexivity|]. split; [reflexivity|].
    intros k c c' Hk. destruct k; discriminate.
  - destruct (pthread_create_result p i =? 0) eqn:Ec; [|discriminate].
    destruct (pthread_join_result p i <? 0) eqn:Eneg; [discriminate|].
    destruct (pthread_join_result p i =? 0) eqn:Ej; [|discriminate].
    destruct (thread_main (worker_world p i) c fuel) as [[c1 t1]| |] eqn:Erun;
      simpl in H; try discriminate.
    destruct (join p fuel contexts (S i)) as [[tr' [fs|]]| |] eqn:Erest;
      simpl in H; try discriminate.
    injection H as <- <-.
    destruct (IH _ _ _ Erest) as (-> & Hlen & Hnth).
    split; [reflexivity|]. split; [simpl; rewrite Hlen; reflexivity|].
    intros k c0 c' Hk Hk'. destruct k as [|k].
    + simpl in Hk, Hk'. injection Hk as <-. injection Hk' as <-.
      rewrite Nat.add_0_r. apply Z.eqb_eq in Ec, Ej. eauto.
    + simpl in Hk, Hk'. replace (i + S k)%nat with (S i + k)%nat by lia.
      eapply Hnth; eauto.
Qed.

Lemma malloc_succeeds_spec p cfg :
  scan_arguments (tl (argv p)) defaults = Some cfg ->
  malloc_returns p (allocation_size (c_threads cfg)) = malloc_succeeds p.
Proof. intros H. unfold malloc_succeeds. rewrite H. reflexivity. Qed.

Lemma main_success_inv p fuel r :
  main p fuel = Returned r -> status r = EXIT_SUCCESS ->
  exists cfg t4 contexts t5,
    scan_arguments (tl (argv p)) defaults = Some cfg
    /\ launch p cfg (compute_finish_time (start_time p) (c_seconds cfg))
         (Z.to_nat (c_threads cfg)) 0 = (t4, Some contexts)
    /\ join p fuel contexts 0 = Returned (t5, Some (thread_contexts r))
    /\ main_trace r
       = main_prefix cfg ++ t4 ++ t5 ++ [report_of cfg (thread_contexts r)].
Proof.
  unfold main. intros H Hs.
  destruct (scan_arguments (tl (argv p)) defaults) as [cfg|];
    [|injection H as <-; discriminate].
  destruct (schema_conn_status p); [|injection H as <-; discriminate].
  destruct (negb (ExecStatusType_eqb (drop_status p) PGRES_COMMAND_OK));
    [injection H as <-; discriminate|].
  destruct (negb (ExecStatusType_eqb (create_status p) PGRES_COMMAND_OK));
    [injection H as <-; discriminate|].
  destruct (negb (malloc_returns p _)); [injection H as <-; discriminate|].
  destruct (launch p cfg _ (Z.to_nat (c_threads cfg)) 0)
    as [t4 [contexts|]] eqn:El; [|injection H as <-; discriminate].
  destruct (join p fuel contexts 0) as [[t5 [finals|]]| |] eqn:Ej;
    simpl in H; try discriminate; [|injection H as <-; discriminate].
  injection H as <-. simpl.
  exists cfg, t4, contexts, t5. repeat split; auto.
Qed.

Lemma main_success p fuel cfg t4 contexts t5 finals :
  scan_arguments (tl (argv p)) defaults = Some cfg ->
  schema_conn_status p = CONNECTION_OK ->
  drop_status p = PGRES_COMMAND_OK ->
  create_status p = PGRES_COMMAND_OK ->
  malloc_succeeds p = true ->
  launch p cfg (compute_finish_time (start_time p) (c_seconds cfg))
    (Z.to_nat (c_threads cfg)) 0 = (t4, Some contexts) ->
  join p fuel contexts 0 = Returned (t5, Some finals) ->
  main p fuel
  = Returned
      (mk_main_result EXIT_SUCCESS
         (main_prefix cfg ++ t4 ++ t5 ++ [report_of cfg finals]) finals).
Proof.
  intros Hscan Hconn Hdrop Hcreate Hmalloc Hl Hj.
  rewrite <- (malloc_succeeds_spec p cfg Hscan) in Hmalloc.
  unfold main. rewrite Hscan, Hconn, Hdrop, Hcreate, Hmalloc. simpl.
  rewrite Hl, Hj. reflexivity.
Qed.

(** ** A launch that fails *)

(** C3. [pthread_create] reports a failure by returning a positive error
    number, and line 204 tests for a negative value: when every launch
    fails with [EAGAIN] the launch loop neither stops nor reports, both
    contexts are handed on to the join loop, and [main] goes on to join
    thread handles that were never filled in instead of returning
    [EXIT_FAILURE]. *)
Theorem C3_failed_launch_is_not_fatal :
  0 < pthread_create_result exhausted_process 0
  /\ launch exhausted_process defaults (compute_finish_time early 60) 2 0
     = ([pthread_create 0%nat; pthread_create 1%nat],
        Some [initial_context defaults (compute_finish_time early 60) 0;
              initial_context defaults (compute_finish_time early 60) 1])
  /\ forall fuel, main exhausted_process fuel = Undefined.
Proof.
  split; [reflexivity|]. split; [reflexivity|]. intros fuel. reflexivity.
Qed.

(** ** A table without rows *)

(** C9, as stated, fails: [--rows 0] is accepted, the workers are
    launched with [rows = 0], and thread 0 reaches the remainder by
    [rows] of line 76 in its first pass, where it is undefined; [main]
    does not return [EXIT_FAILURE]. *)
Lemma C9_rows_zero_reaches_selection :
  scan_arguments (tl (argv no_rows_process)) defaults = Some no_rows_config
  /\ snd (launch no_rows_process no_rows_config (compute_finish_time early 60)
            2 0)
     = Some [initial_context no_rows_config (compute_finish_time early 60) 0;
             initial_context no_rows_config (compute_finish_time early 60) 1]
  /\ next_statement calm_world
       (initial_context no_rows_config (compute_finish_time early 60) 0) 0 0
     = Undefined
  /\ ~ (exists r, main no_rows_process 10 = Returned r
                  /\ status r = EXIT_FAILURE).
Proof.
  split; [reflexivity|]. split; [reflexivity|]. split; [reflexivity|].
  intros (r & H & _). vm_compute in H. discriminate.
Qed.

(** C9, as the code has it. The value after [--rows] is not checked: any
    text is accepted and its [atoi] value, 0 included, is what every
    worker context carries.  In a pass that sends an update, the key is
    defined when [rows >= 1], where it is the remainder of the [rand_r]
    value by [rows], and undefined when [rows = 0]. *)
Theorem C9_rows_unchecked w c i seed :
  1 <= cycle c -> Z.rem i (cycle c) = 0 ->
  (forall value,
     scan_arguments ["--rows"%string; value] defaults
     = Some (mk_config (c_conn_info defaults) (c_queries_per_update defaults)
               (atoi value) (c_seconds defaults) (c_ssi defaults)
               (c_threads defaults)))
  /\ (forall cfg fin n, rows (initial_context cfg fin n) = c_rows cfg)
  /\ (rows c = 0 -> next_statement w c i seed = Undefined)
  /\ (1 <= rows c ->
      next_statement w c i seed
      = Returned (Update (Z.rem (fst (rand_r w seed)) (rows c)),
                  PGRES_COMMAND_OK, snd (rand_r w seed))).
Proof.
  intros Hc Hi.
  split; [intros value; reflexivity|]. split; [reflexivity|].
  unfold next_statement. rewrite rem_positive_divisor by assumption.
  rewrite Hi. simpl. destruct (rand_r w seed) as [value seed']. simpl.
  split.
  - intros ->. reflexivity.
  - intros Hr. rewrite rem_positive_divisor by assumption. reflexivity.
Qed.

Lemma C9_rows_unchecked_witness :
  next_statement calm_world (sample_context 0) 4 0
  = Returned (Update 7, PGRES_COMMAND_OK, 0)
  /\ scan_arguments ["--rows"%string; "0"%string] defaults
     = Some no_rows_config.
Proof.
  destruct (C9_rows_unchecked calm_world (sample_context 0) 4 0)
    as (Hscan & _ & _ & Hkey).
  - vm_compute. discriminate.
  - reflexivity.
  - split.
    + apply Hkey. vm_compute. discriminate.
    + exact (Hscan "0"%string).
Defined.

(** ** The report *)

(** When the schema is set up, every launch and join succeeds and every
    worker returns, [main] returns [EXIT_SUCCESS] with the contexts the
    workers left. *)
Lemma main_reports p fuel cfg (final : nat -> thread_context) :
  scan_arguments (tl (argv p)) defaults = Some cfg ->
  schema_conn_status p = CONNECTION_OK ->
  drop_status p = PGRES_COMMAND_OK ->
  create_status p = PGRES_COMMAND_OK ->
  malloc_succeeds p = true ->
  (forall i, (i < Z.to_nat (c_threads cfg))%nat ->
     pthread_create_result p i = 0 /\ pthread_join_result p i = 0
     /\ exists tr,
          thread_main (worker_world p i)
            (initial_context cfg (deadline p cfg) i) fuel
          = Returned (final i, tr)) ->
  main p fuel
  = Returned
      (mk_main_result EXIT_SUCCESS
         (main_prefix cfg
          ++ map pthread_create (seq 0 (Z.to_nat (c_threads cfg)))
          ++ map pthread_join (seq 0 (Z.to_nat (c_threads cfg)))
          ++ [report_of cfg (map final (seq 0 (Z.to_nat (c_threads cfg))))])
         (map final (seq 0 (Z.to_nat (c_threads cfg))))).
Proof.
  intros Hscan Hconn Hdrop Hcreate Hmalloc Hworkers.
  apply (main_success p fuel cfg _
           (map (initial_context cfg (deadline p cfg))
              (seq 0 (Z.to_nat (c_threads cfg)))));
    try assumption.
  - apply launch_completes. intros i Hi.
    destruct (Hworkers i) as (-> & _); lia.
  - rewrite (join_completes p fuel final).
    + rewrite length_map, length_seq. reflexivity.
    + intros k c Hk. apply nth_error_map_seq in Hk. destruct Hk as (Hlt & ->).
      simpl. apply Hworkers. exact Hlt.
Qed.

(** C6. [main] reports once every worker has returned and been joined:
    when the schema is set up, the launches and joins succeed and every
    worker returns, [main] returns [EXIT_SUCCESS]; and whenever it does,
    it has called [pthread_join] for every worker before the report, each
    context it reads is the one the worker's [thread_main] returned, the
    two totals are the sums of the workers' [transactions] and [failures]
    (as [int]s), and the throughput printed is the total of transactions
    divided by the [--seconds] value of the command line. *)
Theorem C6_report_after_join p fuel :
  (forall cfg (final : nat -> thread_context),
     scan_arguments (tl (argv p)) defaults = Some cfg ->
     schema_conn_status p = CONNECTION_OK ->
     drop_status p = PGRES_COMMAND_OK ->
     create_status p = PGRES_COMMAND_OK ->
     malloc_succeeds p = true ->
     (forall i, (i < Z.to_nat (c_threads cfg))%nat ->
        pthread_create_result p i = 0 /\ pthread_join_result p i = 0
        /\ exists tr,
             thread_main (worker_world p i)
               (initial_context cfg (deadline p cfg) i) fuel
             = Returned (final i, tr)) ->
     exists r,
       main p fuel = Returned r /\ status r = EXIT_SUCCESS
       /\ thread_contexts r = map final (seq 0 (Z.to_nat (c_threads cfg))))
  /\ (forall r,
        main p fuel = Returned r -> status r = EXIT_SUCCESS ->
        exists cfg before total_transactions total_failures,
          scan_arguments (tl (argv p)) defaults = Some cfg
          /\ List.length (thread_contexts r) = Z.to_nat (c_threads cfg)
          /\ (forall i c',
                nth_error (thread_contexts r) i = Some c' ->
                pthread_join_result p i = 0
                /\ exists tr,
                     thread_main (worker_world p i)
                       (initial_context cfg (deadline p cfg) i) fuel
                     = Returned (c', tr))
          /\ main_trace r
             = before
                 ++ map pthread_join (seq 0 (Z.to_nat (c_threads cfg)))
                 ++ [printf_tps
                       (mk_quotient total_transactions (c_seconds cfg))
                       total_failures]
          /\ total_transactions
             = CInt.wrap (sum_Z (map transactions (thread_contexts r)))
          /\ total_failures
             = CInt.wrap (sum_Z (map failures (thread_contexts r)))
          /\ (CInt.in_range (sum_Z (map transactions (thread_contexts r))) ->
              total_transactions
              = sum_Z (map transactions (thread_contexts r)))
          /\ (CInt.in_range (sum_Z (map failures (thread_contexts r))) ->
              total_failures = sum_Z (map failures (thread_contexts r)))).
Proof.
  split.
  { intros cfg final Hscan Hconn Hdrop Hcreate Hmalloc Hworkers.
    eexists. split; [apply (main_reports p fuel cfg final); assumption|].
    split; reflexivity. }
  intros r H Hs.
  destruct (main_success_inv p fuel r H Hs)
    as (cfg & t4 & contexts & t5 & Hscan & Hl & Hj & Htr).
  apply launch_inv in Hl. destruct Hl as (-> & ->).
  apply join_inv in Hj. destruct Hj as (-> & Hlen & Hnth).
  rewrite length_map, length_seq in Hlen.
  exists cfg, (main_prefix cfg
               ++ map pthread_create (seq 0 (Z.to_nat (c_threads cfg)))),
    (fst (count_up (thread_contexts r))),
    (snd (count_up (thread_contexts r))).
  split; [exact Hscan|]. split; [exact Hlen|]. split.
  { intros i c' Hi.
    assert (Hlt : (i < Z.to_nat (c_threads cfg))%nat).
    { rewrite <- Hlen. apply nth_error_Some. congruence. }
    destruct (Hnth i (initial_context cfg (deadline p cfg) i) c')
      as (_ & Hjoin & Hrun); [|exact Hi|].
    - rewrite (nth_error_nth' _ (initial_context cfg (deadline p cfg) 0))
        by (rewrite length_map, length_seq; exact Hlt).
      unfold deadline. rewrite map_nth, seq_nth by exact Hlt. reflexivity.
    - split; [exact Hjoin | exact Hrun]. }
  split.
  { rewrite Htr, length_map, length_seq, <- app_assoc. reflexivity. }
  rewrite count_up_sums. simpl.
  repeat split; auto; intros Hr; apply wrap_in_range; exact Hr.
Qed.

Lemma calm_main : main (calm_process []) 10 = Returned calm_result.
Proof. reflexivity. Defined.

Lemma C6_report_after_join_witness :
  exists before,
    main_trace calm_result
    = before ++ [pthread_join 0%nat; pthread_join 1%nat]
        ++ [printf_tps (mk_quotient 8 60) 4].
Proof.
  destruct (C6_report_after_join (calm_process []) 10) as (_ & H).
  destruct (H calm_result calm_main eq_refl)
    as (cfg & before & t & f & Hscan & _ & _ & Htr & Ht & Hf & _).
  injection Hscan as <-. rewrite Ht, Hf in Htr.
  exists before. exact Htr.
Defined.

(** ** A worker that cannot set up its connection *)

Lemma sum_Z_skip (g h : nat -> Z) (j : nat) (l : list nat) :
  g j = 0 -> (forall i, i <> j -> g i = h i) ->
  sum_Z (map g l)
  = sum_Z (map h (filter (fun i => negb (Nat.eqb i j)) l)).
Proof.
  intros Hj Hother. induction l as [|a l IH]; [reflexivity|].
  simpl. destruct (Nat.eqb a j) eqn:E; simpl.
  - apply Nat.eqb_eq in E. subst a. rewrite Hj, IH. reflexivity.
  - apply Nat.eqb_neq in E. rewrite (Hother a E), IH. reflexivity.
Qed.

Lemma thread_main_setup_failure w c0 fuel :
  conn_status w = CONNECTION_BAD \/ isolation_status w <> PGRES_COMMAND_OK ->
  exists tr,
    thread_main w c0 fuel = Returned (c0, tr)
    /\ iterations tr = 0%nat /\ workload tr = [].
Proof.
  intros H. unfold thread_main.
  destruct (conn_status w) eqn:Ec.
  - destruct H as [H|H]; [discriminate|].
    destruct (ExecStatusType_eqb (isolation_status w) PGRES_COMMAND_OK) eqn:Ei.
    + exfalso. apply H. destruct (isolation_status w); try discriminate.
      reflexivity.
    + eexists. split; [reflexivity|]. split; reflexivity.
  - eexists. split; [reflexivity|]. split; reflexivity.
Qed.

(** C8. A worker that fails to connect or to set its isolation level
    returns at once, whatever the fuel, with its context as [main]
    initialised it, both counters 0, and without having sent a statement
    of the loop.  Every other worker's context is what its own
    [thread_main] returns, and [main] returns [EXIT_SUCCESS] after
    printing the totals of the other workers' counters. *)
Theorem C8_setup_failure_is_local
  p fuel cfg (final : nat -> thread_context) (j : nat) :
  scan_arguments (tl (argv p)) defaults = Some cfg ->
  schema_conn_status p = CONNECTION_OK ->
  drop_status p = PGRES_COMMAND_OK ->
  create_status p = PGRES_COMMAND_OK ->
  malloc_succeeds p = true ->
  (j < Z.to_nat (c_threads cfg))%nat ->
  (forall i, (i < Z.to_nat (c_threads cfg))%nat ->
             pthread_create_result p i = 0 /\ pthread_join_result p i = 0) ->
  (conn_status (worker_world p j) = CONNECTION_BAD
   \/ isolation_status (worker_world p j) <> PGRES_COMMAND_OK) ->
  (forall i, (i < Z.to_nat (c_threads cfg))%nat -> i <> j ->
     exists tr,
       thread_main (worker_world p i)
         (initial_context cfg
            (compute_finish_time (start_time p) (c_seconds cfg)) i) fuel
       = Returned (final i, tr)) ->
  (forall any_fuel,
     exists c' tr,
       thread_main (worker_world p j)
         (initial_context cfg
            (compute_finish_time (start_time p) (c_seconds cfg)) j) any_fuel
       = Returned (c', tr)
       /\ transactions c' = 0 /\ failures c' = 0
       /\ iterations tr = 0%nat /\ workload tr = [])
  /\ exists r before,
       main p fuel = Returned r
       /\ status r = EXIT_SUCCESS
       /\ (forall i, (i < Z.to_nat (c_threads cfg))%nat -> i <> j ->
             nth_error (thread_contexts r) i = Some (final i))
       /\ main_trace r
          = before
              ++ [printf_tps
                    (mk_quotient
                       (CInt.wrap
                          (sum_Z
                             (map (fun i => transactions (final i))
                                (others j (Z.to_nat (c_threads cfg))))))
                       (c_seconds cfg))
                    (CInt.wrap
                       (sum_Z
                          (map (fun i => failures (final i))
                             (others j (Z.to_nat (c_threads cfg))))))].
Proof.
  intros Hscan Hconn Hdrop Hcreate Hmalloc Hj Hthreads Hfail Hothers.
  set (fin := compute_finish_time (start_time p) (c_seconds cfg)) in *.
  set (threads := Z.to_nat (c_threads cfg)) in *.
  split.
  { intros any_fuel.
    destruct (thread_main_setup_failure (worker_world p j)
                (initial_context cfg fin j) any_fuel Hfail)
      as (tr & Hrun & Hn & Hw).
    exists (initial_context cfg fin j), tr. repeat split; auto. }
  pose (final' := fun i => if Nat.eqb i j then initial_context cfg fin j
                           else final i).
  assert (Hjoin : join p fuel (map (initial_context cfg fin) (seq 0 threads)) 0
                  = Returned (map pthread_join (seq 0 threads),
                              Some (map final' (seq 0 threads)))).
  { rewrite (join_completes p fuel final').
    - rewrite length_map, length_seq. reflexivity.
    - intros k c Hk. apply nth_error_map_seq in Hk. destruct Hk as (Hlt & ->).
      simpl. destruct (Hthreads k Hlt) as (Hc & Hjn).
      split; [exact Hc|]. split; [exact Hjn|].
      unfold final'. destruct (Nat.eqb k j) eqn:E.
      + apply Nat.eqb_eq in E. subst k.
        destruct (thread_main_setup_failure (worker_world p j)
                    (initial_context cfg fin j) fuel Hfail) as (tr & Hrun & _).
        eauto.
      + apply Nat.eqb_neq in E. apply Hothers; assumption. }
  assert (Hlaunch : launch p cfg fin threads 0
                    = (map pthread_create (seq 0 threads),
                       Some (map (initial_context cfg fin) (seq 0 threads)))).
  { apply launch_completes. intros i Hi.
    destruct (Hthreads i) as (-> & _); lia. }
  pose proof (main_success p fuel cfg _ _ _ _ Hscan Hconn Hdrop Hcreate Hmalloc
                Hlaunch Hjoin) as Hmain.
  eexists. exists (main_prefix cfg ++ map pthread_create (seq 0 threads)
                   ++ map pthread_join (seq 0 threads)).
  split; [exact Hmain|]. split; [reflexivity|]. split.
  { intros i Hi Hne. simpl.
    rewrite (nth_error_nth' _ (final' 0%nat))
      by (rewrite length_map, length_seq; exact Hi).
    rewrite map_nth, seq_nth by exact Hi. simpl. unfold final'.
    apply Nat.eqb_neq in Hne. rewrite Hne. reflexivity. }
  simpl main_trace. unfold report_of. rewrite count_up_sums. simpl fst.
  simpl snd. rewrite !map_map.
  rewrite (sum_Z_skip (fun i => transactions (final' i))
             (fun i => transactions (final i)) j).
  - rewrite (sum_Z_skip (fun i => failures (final' i))
               (fun i => failures (final i)) j).
    + rewrite <- !app_assoc. reflexivity.
    + unfold final'. rewrite Nat.eqb_refl. reflexivity.
    + intros i Hne. unfold final'. apply Nat.eqb_neq in Hne. rewrite Hne.
      reflexivity.
  - unfold final'. rewrite Nat.eqb_refl. reflexivity.
  - intros i Hne. unfold final'. apply Nat.eqb_neq in Hne. rewrite Hne.
    reflexivity.
Qed.

Lemma C8_setup_failure_is_local_witness :
  exists r before,
    main one_down_process 10 = Returned r
    /\ status r = EXIT_SUCCESS
    /\ main_trace r = before ++ [printf_tps (mk_quotient 4 60) 0].
Proof.
  destruct (C8_setup_failure_is_local one_down_process 10 defaults
              (fun _ => calm_final_0) 1)
    as (_ & r & before & Hmain & Hstatus & _ & Htr).
  - reflexivity.
  - reflexivity.
  - reflexivity.
  - reflexivity.
  - reflexivity.
  - vm_compute. lia.
  - intros i Hi. split; reflexivity.
  - left. reflexivity.
  - intros i Hi Hne.
    assert (i = 0%nat) by (change (Z.to_nat (c_threads defaults)) with 2%nat in Hi; lia).
    subst i. exists calm_trace_0. reflexivity.
  - exists r, before. split; [exact Hmain|]. split; [exact Hstatus|].
    exact Htr.
Defined.

(** ** The finish time *)

Lemma deadline_reached_iff (now fin : timeval) :
  normalised now -> normalised fin ->
  (deadline_reached now fin = true <-> micros fin <= micros now).
Proof.
  unfold normalised, deadline_reached, micros. intros Hn Hf.
  rewrite orb_true_iff, andb_true_iff, Z.gtb_lt, Z.eqb_eq, Z.geb_le. lia.
Qed.

Lemma compute_finish_time_micros (now : timeval) (seconds : Z) :
  micros (compute_finish_time now seconds) = micros now + seconds * 1000000.
Proof. unfold micros, compute_finish_time. simpl. lia. Qed.

Lemma launch_trace_no_clock p cfg fin todo i :
  ~ In gettimeofday (fst (launch p cfg fin todo i)).
Proof.
  revert i. induction todo as [|todo IH]; intros i; simpl; [tauto|].
  destruct (pthread_create_result p i <? 0).
  - simpl. intros [H|[H|[]]]; discriminate.
  - specialize (IH (S i)).
    destruct (launch p cfg fin todo (S i)) as [tr r]. simpl in *.
    intros [H|H]; [discriminate | contradiction].
Qed.

Lemma join_trace_no_clock p fuel contexts :
  forall i tr r,
    join p fuel contexts i = Returned (tr, r) -> ~ In gettimeofday tr.
Proof.
  induction contexts as [|c contexts IH]; intros i tr r H; simpl in H.
  - injection H as <- <-. simpl. tauto.
  - destruct (pthread_create_result p i =? 0); [|discriminate].
    destruct (pthread_join_result p i <? 0).
    + injection H as <- <-. simpl. intros [H|[H|[]]]; discriminate.
    + destruct (pthread_join_result p i =? 0); [|discriminate].
      destruct (thread_main (worker_world p i) c fuel) as [[c1 t1]| |];
        simpl in H; try discriminate.
      destruct (join p fuel contexts (S i)) as [[tr' r']| |] eqn:E;
        simpl in H; try discriminate.
      injection H as <- <-. specialize (IH _ _ _ E).
      simpl. intros [H|H]; [discriminate | contradiction].
Qed.

(** [main] reads the clock once, first of all. *)
Lemma main_reads_clock_once p fuel cfg r :
  scan_arguments (tl (argv p)) defaults = Some cfg ->
  main p fuel = Returned r ->
  exists rest, main_trace r = gettimeofday :: rest /\ ~ In gettimeofday rest.
Proof.
  intros Hscan H. unfold main in H. rewrite Hscan in H.
  destruct (schema_conn_status p);
    [|injection H as <-; eexists; split; [reflexivity|];
      simpl; intros [E|[E|[]]]; discriminate].
  destruct (negb (ExecStatusType_eqb (drop_status p) PGRES_COMMAND_OK));
    [injection H as <-; eexists; split; [reflexivity|];
     simpl; intros [E|[E|[E|[E|[]]]]]; discriminate|].
  destruct (negb (ExecStatusType_eqb (create_status p) PGRES_COMMAND_OK));
    [injection H as <-; eexists; split; [reflexivity|];
     simpl; intros [E|[E|[E|[E|[E|[E|[]]]]]]]; discriminate|].
  destruct (negb (malloc_returns p _));
    [injection H as <-; eexists; split; [reflexivity|];
     simpl; intros [E|[E|[E|[E|[E|[E|[E|[E|[]]]]]]]]]; discriminate|].
  pose proof (launch_trace_no_clock p cfg
                (compute_finish_time (start_time p) (c_seconds cfg))
                (Z.to_nat (c_threads cfg)) 0) as Hl.
  destruct (launch p cfg _ (Z.to_nat (c_threads cfg)) 0)
    as [t4 [contexts|]] eqn:El; simpl in Hl.
  - destruct (join p fuel contexts 0) as [[t5 r5]| |] eqn:Ej; simpl in H;
      try discriminate.
    pose proof (join_trace_no_clock _ _ _ _ _ _ Ej) as Hj.
    destruct r5 as [finals|]; injection H as <-; eexists;
      (split; [reflexivity|]); simpl;
      intros [E|[E|[E|[E|[E|[E|[E|E]]]]]]]; try discriminate;
      apply in_app_or in E; destruct E as [E|E]; try contradiction;
      try (apply in_app_or in E; destruct E as [E|E]; try contradiction);
      simpl in E; destruct E as [E|[]]; discriminate.
  - injection H as <-. eexists. split; [reflexivity|]. simpl.
    intros [E|[E|[E|[E|[E|[E|[E|E]]]]]]]; try discriminate. contradiction.
Qed.

Lemma main_failure_contexts p fuel r :
  main p fuel = Returned r -> status r = EXIT_FAILURE -> thread_contexts r = [].
Proof.
  unfold main. intros H Hs.
  destruct (scan_arguments (tl (argv p)) defaults) as [cfg|];
    [|injection H as <-; reflexivity].
  destruct (schema_conn_status p); [|injection H as <-; reflexivity].
  destruct (negb (ExecStatusType_eqb (drop_status p) PGRES_COMMAND_OK));
    [injection H as <-; reflexivity|].
  destruct (negb (ExecStatusType_eqb (create_status p) PGRES_COMMAND_OK));
    [injection H as <-; reflexivity|].
  destruct (negb (malloc_returns p _)); [injection H as <-; reflexivity|].
  destruct (launch p cfg _ (Z.to_nat (c_threads cfg)) 0)
    as [t4 [contexts|]]; [|injection H as <-; reflexivity].
  destruct (join p fuel contexts 0) as [[t5 [finals|]]| |];
    simpl in H; try discriminate; injection H as <-;
    [discriminate | reflexivity].
Qed.

Lemma main_contexts_finish_time p fuel cfg r :
  scan_arguments (tl (argv p)) defaults = Some cfg ->
  main p fuel = Returned r ->
  Forall (fun c => finish_time c = deadline p cfg) (thread_contexts r).
Proof.
  intros Hscan H. destruct (status r) eqn:Hs.
  - destruct (main_success_inv p fuel r H Hs)
      as (cfg' & t4 & contexts & t5 & Hscan' & Hl & Hj & _).
    rewrite Hscan in Hscan'. injection Hscan' as <-.
    apply launch_inv in Hl. destruct Hl as (_ & ->).
    apply join_inv in Hj. destruct Hj as (_ & Hlen & Hnth).
    apply Forall_forall. intros c' Hin.
    apply In_nth_error in Hin. destruct Hin as (k & Hk).
    assert (Hlt : (k < Z.to_nat (c_threads cfg))%nat).
    { rewrite length_map, length_seq in Hlen. rewrite <- Hlen.
      apply nth_error_Some. congruence. }
    destruct (Hnth k (initial_context cfg (deadline p cfg) k) c')
      as (_ & _ & t & Hrun); [|exact Hk|].
    + rewrite (nth_error_nth' _ (initial_context cfg (deadline p cfg) 0))
        by (rewrite length_map, length_seq; exact Hlt).
      rewrite map_nth, seq_nth by exact Hlt. reflexivity.
    + apply thread_main_same_parameters in Hrun.
      destruct Hrun as (_ & <- & _). reflexivity.
  - rewrite (main_failure_contexts p fuel r H Hs). constructor.
Qed.

(** C7. The finish time is one instant: the clock reading of [main] with
    [--seconds] added to its seconds.  [main] computes it from the only
    clock reading it makes, which comes before every launch, the launch
    loop gives it to every worker, and [thread_main] never changes it: in
    a run that goes through, every context, as launched and as joined,
    carries exactly that instant.  A worker leaves its loop at the first
    pass whose clock reading is at or past it: with fuel for that pass it
    returns after exactly that many passes, however many they are, and
    with less fuel it has not returned. *)
Theorem C7_deadline p cfg :
  scan_arguments (tl (argv p)) defaults = Some cfg ->
  0 <= c_queries_per_update cfg < CInt.INT_MAX ->
  1 <= c_rows cfg ->
  deadline p cfg
  = mk_timeval (tv_sec (start_time p) + c_seconds cfg) (tv_usec (start_time p))
  /\ (forall todo i,
        (forall j, (i <= j < i + todo)%nat -> 0 <= pthread_create_result p j) ->
        exists contexts,
          launch p cfg (deadline p cfg) todo i
          = (map pthread_create (seq i todo), Some contexts)
          /\ List.length contexts = todo
          /\ Forall (fun c => finish_time c = deadline p cfg) contexts)
  /\ (forall fuel (final : nat -> thread_context),
        schema_conn_status p = CONNECTION_OK ->
        drop_status p = PGRES_COMMAND_OK ->
        create_status p = PGRES_COMMAND_OK ->
        malloc_succeeds p = true ->
        (forall i, (i < Z.to_nat (c_threads cfg))%nat ->
           pthread_create_result p i = 0 /\ pthread_join_result p i = 0
           /\ exists tr,
                thread_main (worker_world p i)
                  (initial_context cfg
                     (mk_timeval (tv_sec (start_time p) + c_seconds cfg)
                        (tv_usec (start_time p))) i) fuel
                = Returned (final i, tr)) ->
        exists r rest,
          main p fuel = Returned r
          /\ status r = EXIT_SUCCESS
          /\ main_trace r = gettimeofday :: rest
          /\ ~ In gettimeofday rest
          /\ (forall i, (i < Z.to_nat (c_threads cfg))%nat ->
                        In (pthread_create i) rest)
          /\ List.length (thread_contexts r) = Z.to_nat (c_threads cfg)
          /\ Forall (fun c => finish_time c = deadline p cfg)
               (thread_contexts r))
  /\ (forall fuel r,
        main p fuel = Returned r ->
        (exists rest,
           main_trace r = gettimeofday :: rest /\ ~ In gettimeofday rest)
        /\ Forall (fun c => finish_time c = deadline p cfg)
             (thread_contexts r))
  /\ (forall i w fuel c' tr,
        thread_main w (initial_context cfg (deadline p cfg) i) fuel
        = Returned (c', tr) ->
        finish_time c' = deadline p cfg)
  /\ (forall now,
        normalised now -> normalised (start_time p) ->
        (deadline_reached now (deadline p cfg) = true
         <-> micros (start_time p) + c_seconds cfg * 1000000 <= micros now))
  /\ (forall i w N,
        Z.of_nat i <= CInt.INT_MAX ->
        conn_status w = CONNECTION_OK ->
        isolation_status w = PGRES_COMMAND_OK ->
        (forall m, (m < N)%nat ->
                   deadline_reached (clock w m) (deadline p cfg) = false) ->
        deadline_reached (clock w N) (deadline p cfg) = true ->
        forall fuel,
          ((N < fuel)%nat ->
           exists c' tr,
             thread_main w (initial_context cfg (deadline p cfg) i) fuel
             = Returned (c', tr)
             /\ iterations tr = S N)
          /\ ((fuel <= N)%nat ->
              thread_main w (initial_context cfg (deadline p cfg) i) fuel
              = OutOfFuel)).
Proof.
  intros Hscan Hq Hrows.
  split; [reflexivity|].
  split.
  { intros todo i Hcreates.
    exists (map (initial_context cfg (deadline p cfg)) (seq i todo)).
    split; [apply launch_completes; exact Hcreates|].
    split; [rewrite length_map, length_seq; reflexivity|].
    apply Forall_forall. intros c Hin. apply in_map_iff in Hin.
    destruct Hin as (k & <- & _). reflexivity. }
  split.
  { intros fuel final Hconn Hdrop Hcreate Hmalloc Hworkers.
    pose proof (main_reports p fuel cfg final Hscan Hconn Hdrop Hcreate
                  Hmalloc Hworkers) as Hmain.
    destruct (main_reads_clock_once p fuel cfg _ Hscan Hmain)
      as (rest & Htr & Hno).
    eexists. exists rest.
    split; [exact Hmain|]. split; [reflexivity|]. split; [exact Htr|].
    split; [exact Hno|].
    simpl in Htr. injection Htr as Htr.
    split.
    { intros i Hi. rewrite <- Htr.
      do 7 right. apply in_or_app. left.
      apply in_map. apply in_seq. lia. }
    split; [simpl; rewrite length_map, length_seq; reflexivity|].
    simpl. apply Forall_forall. intros c Hin. apply in_map_iff in Hin.
    destruct Hin as (k & <- & Hk). apply in_seq in Hk.
    destruct (Hworkers k) as (_ & _ & tr & Hrun); [lia|].
    apply thread_main_same_parameters in Hrun.
    destruct Hrun as (_ & <- & _). reflexivity. }
  split.
  { intros fuel r H. split.
    - eapply main_reads_clock_once; eauto.
    - eapply main_contexts_finish_time; eauto. }
  split.
  { intros i w fuel c' tr H. apply thread_main_same_parameters in H.
    destruct H as (_ & <- & _). reflexivity. }
  split.
  { intros now Hnow Hstart.
    rewrite <- compute_finish_time_micros.
    apply deadline_reached_iff; [exact Hnow | exact Hstart]. }
  intros i w N Hi Hc Hiso Hearly Hlate fuel.
  destruct (initial_context_ranges cfg (deadline p cfg) i Hi) as (R1 & R2 & R3).
  destruct (worker_exits_at_deadline w (initial_context cfg (deadline p cfg) i)
              N Hc Hiso) with (fuel := fuel) as [Hyes Hno]; try assumption.
  - rewrite initial_context_cycle by assumption. lia.
  - split; [|exact Hno].
    intros Hlt. destruct (Hyes Hlt) as (c' & tr & Hrun & Hn & _).
    exists c', tr. split; assumption.
Qed.

Lemma C7_deadline_witness :
  (exists r rest,
     main (calm_process []) 10 = Returned r
     /\ main_trace r = gettimeofday :: rest
     /\ In (pthread_create 1) rest
     /\ List.length (thread_contexts r) = 2%nat
     /\ Forall (fun c => finish_time c = mk_timeval 60 0) (thread_contexts r))
  /\ exists c' tr,
       thread_main calm_world
         (initial_context defaults (mk_timeval 60 0) 0) 10
       = Returned (c', tr)
       /\ iterations tr = 4%nat.
Proof.
  destruct (C7_deadline (calm_process []) defaults)
    as (_ & _ & Hmain & _ & _ & _ & H).
  - reflexivity.
  - vm_compute. split; [discriminate | reflexivity].
  - vm_compute. discriminate.
  - split.
    + destruct (Hmain 10%nat calm_final)
        as (r & rest & Hrun & _ & Htr & _ & Hcreate & Hlen & Hfin).
      * reflexivity.
      * reflexivity.
      * reflexivity.
      * reflexivity.
      * intros i Hi. change (Z.to_nat (c_threads defaults)) with 2%nat in Hi.
        split; [reflexivity|]. split; [reflexivity|].
        destruct i as [|[|i]];
          [exists (calm_trace 0) | exists (calm_trace 1) | lia];
          vm_compute; reflexivity.
      * exists r, rest. split; [exact Hrun|]. split; [exact Htr|].
        split; [apply Hcreate; vm_compute; lia|].
        split; [exact Hlen | exact Hfin].
    + destruct (H 0%nat calm_world 3%nat) with (fuel := 10%nat) as [Hyes _].
      * vm_compute. discriminate.
      * reflexivity.
      * reflexivity.
      * intros m Hm.
        destruct m as [|[|[|m]]];
          [reflexivity | reflexivity | reflexivity | lia].
      * reflexivity.
      * apply Hyes. vm_compute. lia.
Defined.

(** * Further properties *)

(** ** Scanning the command line *)

(** The scan of a list with at least two arguments, lines 135-151. *)
Lemma scan_arguments_two arg value rest c :
  scan_arguments (arg :: value :: rest) c
  = if (arg =? "--conn-info")%string then
      scan_arguments rest
        (mk_config value (c_queries_per_update c) (c_rows c) (c_seconds c)
           (c_ssi c) (c_threads c))
    else if (arg =? "--queries-per-update")%string then
      scan_arguments rest
        (mk_config (c_conn_info c) (atoi value) (c_rows c) (c_seconds c)
           (c_ssi c) (c_threads c))
    else if (arg =? "--rows")%string then
      scan_arguments rest
        (mk_config (c_conn_info c) (c_queries_per_update c) (atoi value)
           (c_seconds c) (c_ssi c) (c_threads c))
    else if (arg =? "--seconds")%string then
      scan_arguments rest
        (mk_config (c_conn_info c) (c_queries_per_update c) (c_rows c)
           (atoi value) (c_ssi c) (c_threads c))
    else if (arg =? "--threads")%string then
      scan_arguments rest
        (mk_config (c_conn_info c) (c_queries_per_update c) (c_rows c)
           (c_seconds c) (c_ssi c) (atoi value))
    else if (arg =? "--ssi")%string then
      scan_arguments (value :: rest)
        (mk_config (c_conn_info c) (c_queries_per_update c) (c_rows c)
           (c_seconds c) true (c_threads c))
    else None.
Proof. reflexivity. Qed.

(** [scan_arguments] goes through a list two arguments at a time or one:
    induction on a bound of the length. *)
Lemma scan_arguments_app_bounded (n : nat) :
  forall a b c c',
    (List.length a <= n)%nat ->
    scan_arguments a c = Some c' ->
    scan_arguments (a ++ b) c = scan_arguments b c'.
Proof.
  induction n as [|n IH]; intros a b c c' Hlen H.
  - destruct a; [|simpl in Hlen; lia]. simpl in H. injection H as <-.
    reflexivity.
  - destruct a as [|arg [|value rest]].
    + simpl in H. injection H as <-. reflexivity.
    + simpl in H. destruct (arg =? "--ssi")%string eqn:E; [|discriminate].
      apply String.eqb_eq in E. subst arg. injection H as <-.
      destruct b; reflexivity.
    + assert (Hrest : (List.length rest <= n)%nat) by (simpl in Hlen; lia).
      assert (Htail : (List.length (value :: rest) <= n)%nat)
        by (simpl in Hlen; simpl; lia).
      change ((arg :: value :: rest) ++ b)
        with (arg :: value :: (rest ++ b)).
      rewrite scan_arguments_two in H. rewrite scan_arguments_two.
      destruct (arg =? "--conn-info")%string; [apply IH; assumption|].
      destruct (arg =? "--queries-per-update")%string;
        [apply IH; assumption|].
      destruct (arg =? "--rows")%string; [apply IH; assumption|].
      destruct (arg =? "--seconds")%string; [apply IH; assumption|].
      destruct (arg =? "--threads")%string; [apply IH; assumption|].
      destruct (arg =? "--ssi")%string; [|discriminate].
      apply (IH (value :: rest)); assumption.
Qed.

Lemma scan_arguments_app a b c c' :
  scan_arguments a c = Some c' ->
  scan_arguments (a ++ b) c = scan_arguments b c'.
Proof. apply (scan_arguments_app_bounded (List.length a)). lia. Qed.

(** A property of the settings that each of the six options keeps is kept
    by the scan. *)
Lemma scan_arguments_keeps (P : config -> Prop) :
  (forall c v, P c ->
     P (mk_config v (c_queries_per_update c) (c_rows c) (c_seconds c)
          (c_ssi c) (c_threads c))) ->
  (forall c v, P c ->
     P (mk_config (c_conn_info c) (atoi v) (c_rows c) (c_seconds c)
          (c_ssi c) (c_threads c))) ->
  (forall c v, P c ->
     P (mk_config (c_conn_info c) (c_queries_per_update c) (atoi v)
          (c_seconds c) (c_ssi c) (c_threads c))) ->
  (forall c v, P c ->
     P (mk_config (c_conn_info c) (c_queries_per_update c) (c_rows c)
          (atoi v) (c_ssi c) (c_threads c))) ->
  (forall c v, P c ->
     P (mk_config (c_conn_info c) (c_queries_per_update c) (c_rows c)
          (c_seconds c) (c_ssi c) (atoi v))) ->
  (forall c, P c ->
     P (mk_config (c_conn_info c) (c_queries_per_update c) (c_rows c)
          (c_seconds c) true (c_threads c))) ->
  forall a c c', P c -> scan_arguments a c = Some c' -> P c'.
Proof.
  intros H1 H2 H3 H4 H5 H6 a.
  assert (Hb : forall n a c c',
             (List.length a <= n)%nat -> P c ->
             scan_arguments a c = Some c' -> P c').
  { induction n as [|n IH]; intros a0 c c' Hlen HP H.
    - destruct a0; [|simpl in Hlen; lia]. simpl in H. injection H as <-.
      exact HP.
    - destruct a0 as [|arg [|value rest]].
      + simpl in H. injection H as <-. exact HP.
      + simpl in H. destruct (arg =? "--ssi")%string; [|discriminate].
        injection H as <-. apply H6. exact HP.
      + assert (Hrest : (List.length rest <= n)%nat) by (simpl in Hlen; lia).
        assert (Htail : (List.length (value :: rest) <= n)%nat)
          by (simpl in Hlen; simpl; lia).
        rewrite scan_arguments_two in H.
        destruct (arg =? "--conn-info")%string;
          [eapply (IH rest); [exact Hrest | | exact H]; auto|].
        destruct (arg =? "--queries-per-update")%string;
          [eapply (IH rest); [exact Hrest | | exact H]; auto|].
        destruct (arg =? "--rows")%string;
          [eapply (IH rest); [exact Hrest | | exact H]; auto|].
        destruct (arg =? "--seconds")%string;
          [eapply (IH rest); [exact Hrest | | exact H]; auto|].
        destruct (arg =? "--threads")%string;
          [eapply (IH rest); [exact Hrest | | exact H]; auto|].
        destruct (arg =? "--ssi")%string; [|discriminate].
        eapply (IH (value :: rest)); [exact Htail | | exact H]; auto. }
  intros c c' HP H. exact (Hb (List.length a) a c c' (Nat.le_refl _) HP H).
Qed.

(** X1. Options are processed from left to right, each on the settings the
    ones before it left: when a command line [a] is accepted, scanning
    [a] followed by [b] is scanning [b] from the settings [a] gives. *)
Theorem X1_scan_arguments_composes a b c c' :
  scan_arguments a c = Some c' ->
  scan_arguments (a ++ b) c = scan_arguments b c'.
Proof. apply scan_arguments_app. Qed.

Lemma X1_scan_arguments_composes_witness :
  scan_arguments
    (["--rows"%string; "5"%string] ++ ["--ssi"%string; "--rows"%string; "7"%string])
    defaults
  = Some (mk_config "dbname=postgres" 1 7 60 true 2).
Proof.
  rewrite (X1_scan_arguments_composes ["--rows"%string; "5"%string] _ defaults
             (mk_config "dbname=postgres" 1 5 60 false 2)).
  - reflexivity.
  - reflexivity.
Defined.

(** X2. After any accepted command line, an option that takes a value and
    comes last, without its value, is rejected, and so is a word that is
    none of the six options, whatever follows it. *)
Theorem X2_scan_arguments_rejects a c c' :
  scan_arguments a c = Some c' ->
  (forall option,
     In option ["--conn-info"; "--queries-per-update"; "--rows"; "--seconds";
                "--threads"]%string ->
     scan_arguments (a ++ [option]) c = None)
  /\ (forall word rest,
        ~ In word ["--conn-info"; "--queries-per-update"; "--rows";
                   "--seconds"; "--threads"; "--ssi"]%string ->
        scan_arguments (a ++ word :: rest) c = None).
Proof.
  intros H. split.
  - intros option Hin. rewrite (scan_arguments_app a _ c c' H).
    simpl in Hin.
    destruct Hin as [<-|[<-|[<-|[<-|[<-|[]]]]]]; reflexivity.
  - intros word rest Hnot. rewrite (scan_arguments_app a _ c c' H).
    assert (Hne : forall name,
              In name ["--conn-info"; "--queries-per-update"; "--rows";
                       "--seconds"; "--threads"; "--ssi"]%string ->
              (word =? name)%string = false).
    { intros name Hin. apply String.eqb_neq. intros ->. contradiction. }
    destruct rest as [|value rest].
    + simpl. rewrite (Hne "--ssi"%string) by (simpl; tauto). reflexivity.
    + rewrite scan_arguments_two.
      rewrite (Hne "--conn-info"%string), (Hne "--queries-per-update"%string),
        (Hne "--rows"%string), (Hne "--seconds"%string),
        (Hne "--threads"%string), (Hne "--ssi"%string)
        by (simpl; tauto).
      reflexivity.
Qed.

Lemma X2_scan_arguments_rejects_witness :
  scan_arguments (["--ssi"%string] ++ ["--threads"%string]) defaults = None
  /\ scan_arguments (["--ssi"%string] ++ ["-h"%string; "--ssi"%string]) defaults
     = None.
Proof.
  destruct (X2_scan_arguments_rejects ["--ssi"%string] defaults
              (mk_config "dbname=postgres" 1 10 60 true 2) eq_refl)
    as (Hlast & Hword).
  split.
  - apply Hlast. simpl. tauto.
  - apply Hword. simpl.
    intros [H|[H|[H|[H|[H|[H|[]]]]]]]; discriminate.
Defined.

Lemma atoi_range (s : string) : CInt.in_range (atoi s).
Proof.
  unfold atoi. destruct (skip_spaces s) as [|ch rest]; [apply wrap_range|].
  destruct ch as [[] [] [] [] [] [] [] []]; apply wrap_range.
Qed.




(** ** The trace, the seed and the failure counter of a worker *)

Lemma failed_passes_snoc w n stmts s :
  failed_passes w n (stmts ++ [s])
  = (failed_passes w n stmts
     + (if succeeded s (exec_status w (n + List.length stmts)) then 0 else 1))%nat.
Proof.
  revert n. induction stmts as [|s0 stmts IH]; intros n; simpl.
  - rewrite !Nat.add_0_r. reflexivity.
  - rewrite IH. replace (S n + List.length stmts)%nat
      with (n + S (List.length stmts))%nat by lia. lia.
Qed.

Lemma update_keys_snoc stmts s :
  update_keys (stmts ++ [s])
  = update_keys stmts ++ match s with Update k => [k] | _ => [] end.
Proof.
  unfold update_keys. rewrite flat_map_app. simpl. rewrite app_nil_r.
  reflexivity.
Qed.

Lemma loop_shape_entry w c0 : loop_shape w c0 0 (entry_state c0).
Proof.
  exists []. simpl.
  split; [reflexivity|]. split; [reflexivity|]. split; [constructor|].
  split; [reflexivity|]. split; [reflexivity|]. split; [congruence|].
  split; [|apply same_parameters_refl].
  rewrite Z.add_0_r. reflexivity.
Qed.

Lemma loop_shape_step w c0 n st st' stop :
  loop_shape w c0 n st -> iteration w n st = Returned (st', stop) ->
  loop_shape w c0 (S n) st'.
Proof.
  intros (stmts & Hlen & Htr & Hkinds & Hseed & Hkeys & Hrows & Hfail & Hp) H.
  pose proof (iteration_same_parameters _ _ _ _ _ H) as Hsame.
  apply iteration_inv in H.
  destruct H as (stmt & expected & seed' & Hnext & Hc & _ & Hseed' & Htr' & _).
  assert (Hrows0 : rows (ls_context st) = rows c0)
    by (destruct Hp as (_ & _ & _ & <- & _); reflexivity).
  apply next_statement_inv in Hnext.
  destruct Hnext as (r & _ & Hcase).
  exists (stmts ++ [stmt]).
  split; [rewrite length_app, Hlen; simpl; lia|].
  split; [rewrite Htr', Htr, flat_map_app, <- app_assoc; reflexivity|].
  assert (Hexpected : ExecStatusType_eqb (exec_status w n) expected
                      = succeeded stmt (exec_status w n)).
  { destruct Hcase as [(_ & _ & (k & ->) & -> & _) | (_ & -> & -> & _)];
      reflexivity. }
  assert (Hfail' : CInt.wrap (failures (ls_context st'))
                   = CInt.wrap
                       (failures c0
                        + Z.of_nat (failed_passes w 0 (stmts ++ [stmt])))).
  { rewrite failed_passes_snoc, Hlen, Hc, Hexpected. simpl Nat.add.
    destruct (succeeded stmt (exec_status w n)); simpl.
    - rewrite Hfail, Nat.add_0_r. reflexivity.
    - unfold CInt.incr. rewrite (wrap_in_range _ (wrap_range _)).
      rewrite <- wrap_add_wrap, Hfail, wrap_add_wrap. f_equal. lia. }
  assert (Hp' : same_parameters c0 (ls_context st'))
    by (eapply same_parameters_trans; eauto).
  destruct Hcase as [(_ & Hkey & (k & ->) & _ & ->) | (_ & -> & _ & ->)].
  - simpl in Hkey. rewrite Hrows0, Hseed in Hkey. apply rem_some in Hkey.
    destruct Hkey as (Hnz & ->).
    split; [apply Forall_app; split;
            [exact Hkinds | constructor; [right; eauto | constructor]]|].
    rewrite update_keys_snoc, length_app. simpl List.length.
    replace (List.length (update_keys stmts) + 1)%nat
      with (S (List.length (update_keys stmts))) by lia.
    split; [rewrite Hseed' , Hseed; reflexivity|].
    split; [rewrite seq_S, map_app, <- Hkeys; reflexivity|].
    split; [intros _; exact Hnz|].
    split; assumption.
  - split; [apply Forall_app; split;
            [exact Hkinds | constructor; [left; reflexivity | constructor]]|].
    rewrite update_keys_snoc, app_nil_r.
    split; [rewrite Hseed'; exact Hseed|].
    split; [exact Hkeys|]. split; [exact Hrows|].
    split; assumption.
Qed.

Lemma statements_of_blocks stmts :
  Forall (fun s => s = Select \/ exists k, s = Update k) stmts ->
  statements_of (flat_map block stmts) = stmts.
Proof.
  induction 1 as [|s stmts Hs _ IH]; [reflexivity|].
  simpl. destruct Hs as [->|(k & ->)]; simpl; fold (statements_of (flat_map block stmts));
    rewrite IH; reflexivity.
Qed.

Lemma statements_of_app a b :
  statements_of (a ++ b) = statements_of a ++ statements_of b.
Proof. unfold statements_of. apply flat_map_app. Qed.

Lemma iterations_blocks stmts :
  iterations (flat_map block stmts) = List.length stmts.
Proof.
  unfold iterations. induction stmts as [|s stmts IH]; [reflexivity|].
  simpl. rewrite IH. reflexivity.
Qed.

Lemma count_updates_blocks stmts :
  Forall (fun s => s = Select \/ exists k, s = Update k) stmts ->
  count_updates (flat_map block stmts) = List.length (update_keys stmts).
Proof.
  unfold count_updates. induction 1 as [|s stmts Hs _ IH]; [reflexivity|].
  simpl. destruct Hs as [->|(k & ->)]; simpl; rewrite IH; reflexivity.
Qed.

(** A returned run of a connected worker, read through its statements. *)
Lemma thread_main_shape w c0 fuel c' tr :
  conn_status w = CONNECTION_OK ->
  isolation_status w = PGRES_COMMAND_OK ->
  thread_main w c0 fuel = Returned (c', tr) ->
  tr = entry_trace c0 ++ flat_map block (statements_of tr) ++ [PQfinish]
  /\ Forall (fun s => s = Select \/ exists k, s = Update k) (statements_of tr)
  /\ List.length (statements_of tr) = iterations tr
  /\ List.length (update_keys (statements_of tr)) = count_updates tr
  /\ update_keys (statements_of tr)
     = map (fun k =>
              Z.rem
                (fst (rand_r w
                        (nth_seed w (CInt.to_unsigned (thread_number c0)) k)))
                (rows c0))
         (seq 0 (count_updates tr))
  /\ (update_keys (statements_of tr) <> [] -> rows c0 <> 0)
  /\ CInt.wrap (failures c')
     = CInt.wrap
         (failures c0 + Z.of_nat (failed_passes w 0 (statements_of tr))).
Proof.
  intros Hc Hi H. rewrite thread_main_connected in H by assumption.
  destruct (loop w fuel 0 (entry_state c0)) as [st'| |] eqn:E; simpl in H;
    try discriminate.
  injection H as <- <-.
  apply (loop_invariant w (loop_shape w c0)) in E;
    [|intros n st st1 HP Hit; eapply loop_shape_step; eauto
     |apply loop_shape_entry].
  destruct E as (N & last & _ & _ & HP & Hit).
  pose proof (loop_shape_step _ _ _ _ _ _ HP Hit)
    as (stmts & Hlen & Htr & Hkinds & _ & Hkeys & Hrows & Hfail & _).
  assert (Hstmts : statements_of (ls_trace st' ++ [PQfinish]) = stmts).
  { rewrite Htr, !statements_of_app, statements_of_blocks by exact Hkinds.
    simpl. apply app_nil_r. }
  assert (Hupd : count_updates (ls_trace st' ++ [PQfinish])
                 = List.length (update_keys stmts)).
  { rewrite Htr, <- app_assoc. unfold count_updates.
    rewrite filter_entry_trace by reflexivity.
    apply count_updates_blocks. exact Hkinds. }
  rewrite Hstmts, Hupd.
  split; [rewrite Htr, <- app_assoc; reflexivity|].
  split; [exact Hkinds|].
  split.
  { rewrite Htr, <- app_assoc. unfold iterations.
    rewrite filter_entry_trace by reflexivity.
    symmetry. apply iterations_blocks. }
  split; [reflexivity|]. split; [exact Hkeys|]. split; [exact Hrows|].
  exact Hfail.
Qed.

Lemma thread_main_failures_range w c0 fuel c' tr :
  CInt.in_range (failures c0) ->
  thread_main w c0 fuel = Returned (c', tr) -> CInt.in_range (failures c').
Proof.
  intros R H. unfold thread_main in H.
  destruct (conn_status w);
    [destruct (ExecStatusType_eqb (isolation_status w) PGRES_COMMAND_OK)|];
    try (injection H as <- <-; exact R).
  destruct (loop w fuel 0 _) as [st'| |] eqn:E; simpl in H; try discriminate.
  injection H as <- <-.
  assert (Hstep : forall n st st1 stop,
            CInt.in_range (failures (ls_context st)) ->
            iteration w n st = Returned (st1, stop) ->
            CInt.in_range (failures (ls_context st1))).
  { intros n st st1 stop HP Hit. apply iteration_counters in Hit.
    destruct Hit as (stmt & _ & _ & ->).
    destruct (succeeded stmt (exec_status w n)); [exact HP | apply wrap_range]. }
  apply (loop_invariant w
           (fun _ st => CInt.in_range (failures (ls_context st)))) in E.
  - destruct E as (N & last & _ & _ & HP & Hit). eapply Hstep; eauto.
  - intros n st st1 HP Hit. eapply Hstep; eauto.
  - exact R.
Qed.

Lemma failed_passes_le w n stmts :
  (failed_passes w n stmts <= List.length stmts)%nat.
Proof.
  revert n. induction stmts as [|s stmts IH]; intros n; simpl; [lia|].
  specialize (IH (S n)). destruct (succeeded s (exec_status w n)); lia.
Qed.

Lemma failed_passes_none w stmts :
  forall n,
    (forall k s, nth_error stmts k = Some s ->
                 succeeded s (exec_status w (n + k)) = true) ->
    failed_passes w n stmts = 0%nat.
Proof.
  induction stmts as [|s stmts IH]; intros n H; [reflexivity|].
  simpl. pose proof (H 0%nat s eq_refl) as H0. rewrite Nat.add_0_r in H0.
  rewrite H0, IH; [reflexivity|].
  intros k s' Hk. replace (S n + k)%nat with (n + S k)%nat by lia.
  apply H. exact Hk.
Qed.

Lemma failed_passes_updates w stmts :
  forall n,
    (forall k s, nth_error stmts k = Some s ->
                 succeeded s (exec_status w (n + k))
                 = negb (match s with Update _ => true | _ => false end)) ->
    failed_passes w n stmts = List.length (update_keys stmts).
Proof.
  induction stmts as [|s stmts IH]; intros n H; [reflexivity|].
  simpl. pose proof (H 0%nat s eq_refl) as H0. rewrite Nat.add_0_r in H0.
  rewrite H0, IH.
  - destruct s; reflexivity.
  - intros k s' Hk. replace (S n + k)%nat with (n + S k)%nat by lia.
    apply H. exact Hk.
Qed.

(** X4. The calls of a connected worker that returns are, in this order:
    the connection, the isolation command and the release of its result;
    then for each pass the statement, the release of its result and the
    clock reading; then [PQfinish].  Every result is released before the
    next call, and nothing is sent after the clock reading that ends the
    loop. *)
Theorem X4_worker_trace_shape w c0 fuel c' tr :
  conn_status w = CONNECTION_OK ->
  isolation_status w = PGRES_COMMAND_OK ->
  thread_main w c0 fuel = Returned (c', tr) ->
  tr = [PQconnectdb (conn_info c0); PQexec (SetIsolation (ssi c0)); PQclear]
         ++ flat_map (fun s => [PQexec s; PQclear; gettimeofday])
              (statements_of tr)
         ++ [PQfinish]
  /\ Forall (fun s => s = Select \/ exists k, s = Update k) (statements_of tr)
  /\ List.length (statements_of tr) = iterations tr.
Proof.
  intros Hc Hi H.
  destruct (thread_main_shape w c0 fuel c' tr Hc Hi H) as (Htr & Hk & Hn & _).
  split; [exact Htr|]. split; assumption.
Qed.

Lemma X4_worker_trace_shape_witness :
  statements_of calm_trace_0 = [Update 7; Select; Update 7; Select]
  /\ List.length (statements_of calm_trace_0) = iterations calm_trace_0.
Proof.
  destruct (X4_worker_trace_shape calm_world (sample_context 0) 10
              calm_final_0 calm_trace_0 eq_refl eq_refl calm_run_0)
    as (_ & _ & Hn).
  split; [reflexivity | exact Hn].
Defined.

(** X5. The keys a worker asks for are decided by its thread number and
    [rows] alone: [rand_r] is called once per update, on the seed the
    update before left, starting from the thread number, so the k-th
    update of a returned run has as key the remainder by [rows] of the
    k-th value of that sequence, whatever the statuses and clock readings
    were. *)
Theorem X5_keys_follow_the_seed w c0 fuel c' tr :
  conn_status w = CONNECTION_OK ->
  isolation_status w = PGRES_COMMAND_OK ->
  thread_main w c0 fuel = Returned (c', tr) ->
  update_keys (statements_of tr)
  = map (fun k =>
           Z.rem
             (fst (rand_r w
                     (nth_seed w (CInt.to_unsigned (thread_number c0)) k)))
             (rows c0))
      (seq 0 (count_updates tr)).
Proof.
  intros Hc Hi H.
  destruct (thread_main_shape w c0 fuel c' tr Hc Hi H)
    as (_ & _ & _ & _ & Hkeys & _).
  exact Hkeys.
Qed.

Lemma X5_keys_follow_the_seed_witness :
  update_keys (statements_of calm_trace_0) = [7; 7].
Proof.
  rewrite (X5_keys_follow_the_seed calm_world (sample_context 0) 10
             calm_final_0 calm_trace_0 eq_refl eq_refl calm_run_0).
  reflexivity.
Defined.

(** X6. [failures] counts exactly the passes whose statement did not
    complete successfully: it is 0 when every statement succeeded, and
    when the server rejects every update and answers every select it is
    the number of updates sent. *)
Theorem X6_failures_are_failed_passes w c0 fuel c' tr :
  conn_status w = CONNECTION_OK ->
  isolation_status w = PGRES_COMMAND_OK ->
  failures c0 = 0 ->
  thread_main w c0 fuel = Returned (c', tr) ->
  Z.of_nat (iterations tr) <= CInt.INT_MAX ->
  failures c' = Z.of_nat (failed_passes w 0 (statements_of tr))
  /\ ((forall n s, nth_error (statements_of tr) n = Some s ->
                   succeeded s (exec_status w n) = true) ->
      failures c' = 0)
  /\ ((forall n s, nth_error (statements_of tr) n = Some s ->
                   succeeded s (exec_status w n)
                   = negb (match s with Update _ => true | _ => false end)) ->
      failures c' = Z.of_nat (count_updates tr)).
Proof.
  intros Hc Hi H0 H Hmax.
  assert (R : CInt.in_range (failures c0))
    by (rewrite H0; unfold CInt.in_range, CInt.INT_MIN, CInt.INT_MAX; lia).
  pose proof (thread_main_failures_range w c0 fuel c' tr R H) as R'.
  destruct (thread_main_shape w c0 fuel c' tr Hc Hi H)
    as (_ & _ & Hn & Hupd & _ & _ & Hfail).
  pose proof (failed_passes_le w 0 (statements_of tr)) as Hle.
  rewrite Hn in Hle.
  rewrite (wrap_in_range _ R'), H0 in Hfail.
  rewrite wrap_in_range in Hfail
    by (unfold CInt.in_range, CInt.INT_MIN, CInt.INT_MAX in *; lia).
  simpl in Hfail.
  split; [exact Hfail|]. split.
  - intros Hall. rewrite Hfail, failed_passes_none; [reflexivity|exact Hall].
  - intros Hall. rewrite Hfail, failed_passes_updates, Hupd;
      [reflexivity | exact Hall].
Qed.

Lemma X6_failures_are_failed_passes_witness : failures calm_final_0 = 0.
Proof.
  destruct (X6_failures_are_failed_passes calm_world (sample_context 0) 10
              calm_final_0 calm_trace_0 eq_refl eq_refl eq_refl calm_run_0)
    as (_ & Hnone & _).
  - vm_compute. discriminate.
  - apply Hnone. intros n s Hn.
    change (statements_of calm_trace_0)
      with [Update 7; Select; Update 7; Select] in Hn.
    destruct n as [|[|[|[|n]]]]; simpl in Hn;
      [injection Hn as <-; reflexivity ..
      |destruct n; discriminate Hn].
Defined.

Lemma no_keys_all_selects stmts :
  Forall (fun s => s = Select \/ exists k, s = Update k) stmts ->
  update_keys stmts = [] -> Forall (fun s => s = Select) stmts.
Proof.
  induction 1 as [|s stmts Hs _ IH]; intros Hnone; [constructor|].
  destruct Hs as [->|(k & ->)]; [|discriminate].
  constructor; [reflexivity | apply IH; exact Hnone].
Qed.

(** X7. With [rows = 0] a worker that returns has sent no update: it can
    only return when the finish time is reached before its first update
    is due. *)
Theorem X7_no_rows_no_update w c0 fuel c' tr :
  conn_status w = CONNECTION_OK ->
  isolation_status w = PGRES_COMMAND_OK ->
  rows c0 = 0 ->
  thread_main w c0 fuel = Returned (c', tr) ->
  count_updates tr = 0%nat /\ Forall (fun s => s = Select) (statements_of tr).
Proof.
  intros Hc Hi Hrows H.
  destruct (thread_main_shape w c0 fuel c' tr Hc Hi H)
    as (_ & Hkinds & _ & Hupd & _ & Hnz & _).
  assert (Hnone : update_keys (statements_of tr) = []).
  { destruct (update_keys (statements_of tr)) eqn:E; [reflexivity|].
    exfalso. apply Hnz; [congruence | exact Hrows]. }
  split; [rewrite <- Hupd, Hnone; reflexivity|].
  apply no_keys_all_selects; assumption.
Qed.

Lemma X7_no_rows_no_update_witness :
  exists c' tr,
    thread_main overdue_world (initial_context no_rows_config late 1) 5
    = Returned (c', tr)
    /\ count_updates tr = 0%nat.
Proof.
  eexists. eexists. split; [reflexivity|].
  apply (X7_no_rows_no_update overdue_world
           (initial_context no_rows_config late 1) 5 _ _ eq_refl eq_refl
           eq_refl eq_refl).
Defined.

(** X8. With [--queries-per-update -1] the cycle length is 0 and the
    remainder of line 69 is undefined in the first pass of every worker
    that connected. *)
Theorem X8_zero_cycle_is_undefined w cfg fin i fuel :
  conn_status w = CONNECTION_OK ->
  isolation_status w = PGRES_COMMAND_OK ->
  c_queries_per_update cfg = -1 ->
  cycle (initial_context cfg fin i) = 0
  /\ thread_main w (initial_context cfg fin i) (S fuel) = Undefined.
Proof.
  intros Hc Hi Hq.
  assert (Hcycle : cycle (initial_context cfg fin i) = 0)
    by (simpl; rewrite Hq; reflexivity).
  split; [exact Hcycle|].
  rewrite thread_main_connected by assumption.
  cbn [loop]. unfold iteration, next_statement.
  cbn [entry_state ls_context ls_i ls_seed]. rewrite Hcycle.
  unfold CInt.rem. simpl. reflexivity.
Qed.

Lemma X8_zero_cycle_is_undefined_witness :
  scan_arguments ["--queries-per-update"%string; "-1"%string] defaults
  = Some (mk_config "dbname=postgres" (-1) 10 60 false 2)
  /\ thread_main calm_world
       (initial_context (mk_config "dbname=postgres" (-1) 10 60 false 2)
          late 1) 3
     = Undefined.
Proof.
  split; [reflexivity|].
  apply (X8_zero_cycle_is_undefined calm_world
           (mk_config "dbname=postgres" (-1) 10 60 false 2) late 1 2
           eq_refl eq_refl eq_refl).
Defined.

(** ** The paths through [main] *)

Lemma ExecStatusType_eqb_eq a b : ExecStatusType_eqb a b = true <-> a = b.
Proof. destruct a, b; simpl; split; intros H; congruence. Qed.

Lemma launch_trace_calls p cfg fin todo i :
  Forall (fun e => is_thread_call e = true) (fst (launch p cfg fin todo i))
  /\ forall j, In (pthread_create j) (fst (launch p cfg fin todo i)) ->
               (i <= j < i + todo)%nat.
Proof.
  revert i. induction todo as [|todo IH]; intros i; simpl.
  - split; [constructor | intros j []].
  - destruct (pthread_create_result p i <? 0).
    + simpl. split; [repeat constructor|].
      intros j [H|[H|[]]]; [injection H as <-; lia | discriminate].
    + destruct (IH (S i)) as (Hall & Hin).
      destruct (launch p cfg fin todo (S i)) as [tr r]. simpl in *.
      split; [constructor; [reflexivity | exact Hall]|].
      intros j [H|H]; [injection H as <-; lia|].
      apply Hin in H. lia.
Qed.

Lemma join_trace_calls p fuel contexts :
  forall i tr r,
    join p fuel contexts i = Returned (tr, r) ->
    Forall (fun e => is_thread_call e = true) tr
    /\ forall j, ~ In (pthread_create j) tr.
Proof.
  induction contexts as [|c contexts IH]; intros i tr r H; simpl in H.
  - injection H as <- <-. split; [constructor | intros j []].
  - destruct (pthread_create_result p i =? 0); [|discriminate].
    destruct (pthread_join_result p i <? 0).
    + injection H as <- <-. split; [repeat constructor|].
      intros j [H|[H|[]]]; discriminate.
    + destruct (pthread_join_result p i =? 0); [|discriminate].
      destruct (thread_main (worker_world p i) c fuel) as [[c1 t1]| |];
        simpl in H; try discriminate.
      destruct (join p fuel contexts (S i)) as [[tr' r']| |] eqn:E;
        simpl in H; try discriminate.
      injection H as <- <-. destruct (IH _ _ _ E) as (Hall & Hno).
      split; [constructor; [reflexivity | exact Hall]|].
      intros j [H|H]; [discriminate | exact (Hno j H)].
Qed.

(** Every way [main] returns, once the command line is accepted. *)
Lemma main_paths p fuel cfg r :
  scan_arguments (tl (argv p)) defaults = Some cfg ->
  main p fuel = Returned r ->
  (schema_conn_status p = CONNECTION_BAD /\ status r = EXIT_FAILURE
   /\ main_trace r
      = [gettimeofday; PQconnectdb (c_conn_info cfg);
         fprintf_stderr "Failed to connect."])
  \/ (schema_conn_status p = CONNECTION_OK
      /\ drop_status p <> PGRES_COMMAND_OK /\ status r = EXIT_FAILURE
      /\ main_trace r
         = [gettimeofday; PQconnectdb (c_conn_info cfg); PQexec DropTable;
            fprintf_stderr "Failed: "; PQfinish])
  \/ (schema_conn_status p = CONNECTION_OK
      /\ drop_status p = PGRES_COMMAND_OK
      /\ create_status p <> PGRES_COMMAND_OK /\ status r = EXIT_FAILURE
      /\ main_trace r
         = [gettimeofday; PQconnectdb (c_conn_info cfg); PQexec DropTable;
            PQclear; PQexec (CreateTable (c_rows cfg));
            fprintf_stderr "Failed: "; PQfinish])
  \/ (schema_conn_status p = CONNECTION_OK
      /\ drop_status p = PGRES_COMMAND_OK
      /\ create_status p = PGRES_COMMAND_OK
      /\ ((malloc_succeeds p = false /\ status r = EXIT_FAILURE
           /\ main_trace r
              = main_prefix cfg ++ [fprintf_stderr "out of memory"])
          \/ (malloc_succeeds p = true /\ status r = EXIT_FAILURE
              /\ exists calls,
                   main_trace r = main_prefix cfg ++ calls
                   /\ Forall (fun e => is_thread_call e = true) calls
                   /\ forall j, In (pthread_create j) calls ->
                                (j < Z.to_nat (c_threads cfg))%nat)
          \/ (malloc_succeeds p = true /\ status r = EXIT_SUCCESS
              /\ main_trace r
                 = main_prefix cfg
                     ++ map pthread_create (seq 0 (Z.to_nat (c_threads cfg)))
                     ++ map pthread_join (seq 0 (Z.to_nat (c_threads cfg)))
                     ++ [report_of cfg (thread_contexts r)]))).
Proof.
  intros Hscan H. unfold main in H. rewrite Hscan in H.
  destruct (schema_conn_status p);
    [|injection H as <-; left; repeat split; reflexivity].
  right.
  destruct (ExecStatusType_eqb (drop_status p) PGRES_COMMAND_OK) eqn:Ed;
    simpl in H;
    [|injection H as <-; left; repeat split; try reflexivity;
      intros E; apply ExecStatusType_eqb_eq in E; congruence].
  right. apply ExecStatusType_eqb_eq in Ed.
  destruct (ExecStatusType_eqb (create_status p) PGRES_COMMAND_OK) eqn:Ec;
    simpl in H;
    [|injection H as <-; left; repeat split; try reflexivity; try assumption;
      intros E; apply ExecStatusType_eqb_eq in E; congruence].
  right. apply ExecStatusType_eqb_eq in Ec.
  split; [reflexivity|]. split; [exact Ed|]. split; [exact Ec|].
  rewrite (malloc_succeeds_spec p cfg Hscan) in H.
  destruct (malloc_succeeds p); simpl in H;
    [|injection H as <-; left; repeat split; reflexivity].
  right.
  pose proof (launch_trace_calls p cfg
                (compute_finish_time (start_time p) (c_seconds cfg))
                (Z.to_nat (c_threads cfg)) 0) as (Hlc & Hli).
  destruct (launch p cfg _ (Z.to_nat (c_threads cfg)) 0)
    as [t4 [contexts|]] eqn:El; simpl in Hlc, Hli.
  - destruct (join p fuel contexts 0) as [[t5 [finals|]]| |] eqn:Ej;
      simpl in H; try discriminate; injection H as <-.
    + right. split; [reflexivity|]. split; [reflexivity|].
      apply launch_inv in El. destruct El as (-> & ->).
      apply join_inv in Ej. destruct Ej as (-> & _).
      simpl. rewrite length_map, length_seq. reflexivity.
    + left. split; [reflexivity|]. split; [reflexivity|].
      destruct (join_trace_calls _ _ _ _ _ _ Ej) as (Hjc & Hjn).
      exists (t4 ++ t5). split; [reflexivity|].
      split; [apply Forall_app; split; assumption|].
      intros j Hin. apply in_app_or in Hin. destruct Hin as [Hin|Hin].
      * apply Hli in Hin. lia.
      * exfalso. exact (Hjn j Hin).
  - injection H as <-. left. split; [reflexivity|]. split; [reflexivity|].
    exists t4. split; [reflexivity|]. split; [exact Hlc|].
    intros j Hin. apply Hli in Hin. lia.
Qed.

Lemma thread_call_not_finish (calls : list event) :
  Forall (fun e => is_thread_call e = true) calls ->
  filter is_PQfinish calls = [] /\ filter is_report calls = [].
Proof.
  induction 1 as [|e calls He _ (IH1 & IH2)]; [split; reflexivity|].
  destruct e; try discriminate He; simpl; split; assumption.
Qed.

Lemma Forall_thread_calls (n : nat) :
  Forall (fun e => is_thread_call e = true)
    (map pthread_create (seq 0 n) ++ map pthread_join (seq 0 n)).
Proof.
  apply Forall_app. split; apply Forall_forall; intros e He;
    apply in_map_iff in He; destruct He as (i & <- & _); reflexivity.
Qed.

(** X9. [main] launches a thread only when the whole set-up went through:
    the command line was accepted, the connection was made, both schema
    commands succeeded and the contexts were allocated; by then it has
    created the table with the [--rows] value and closed its own
    connection, and the thread's number is below [--threads]. *)
Theorem X9_threads_only_after_setup p fuel r i :
  main p fuel = Returned r ->
  In (pthread_create i) (main_trace r) ->
  exists cfg rest,
    scan_arguments (tl (argv p)) defaults = Some cfg
    /\ schema_conn_status p = CONNECTION_OK
    /\ drop_status p = PGRES_COMMAND_OK
    /\ create_status p = PGRES_COMMAND_OK
    /\ malloc_succeeds p = true
    /\ (i < Z.to_nat (c_threads cfg))%nat
    /\ main_trace r
       = [gettimeofday; PQconnectdb (c_conn_info cfg); PQexec DropTable;
          PQclear; PQexec (CreateTable (c_rows cfg)); PQclear; PQfinish;
          malloc (allocation_size (c_threads cfg))] ++ rest
    /\ In (pthread_create i) rest.
Proof.
  intros H Hin.
  destruct (scan_arguments (tl (argv p)) defaults) as [cfg|] eqn:Hscan.
  - destruct (main_paths p fuel cfg r Hscan H)
      as [(_ & _ & Htr)|[(_ & _ & _ & Htr)|[(_ & _ & _ & _ & Htr)
         |(Hc & Hd & Hcr & [(_ & _ & Htr)|[(Hm & _ & calls & Htr & _ & Hlt)
                                         |(Hm & _ & Htr)]])]]];
      rewrite Htr in Hin.
    + simpl in Hin. destruct Hin as [E|[E|[E|[]]]]; discriminate.
    + simpl in Hin. destruct Hin as [E|[E|[E|[E|[E|[]]]]]]; discriminate.
    + simpl in Hin.
      destruct Hin as [E|[E|[E|[E|[E|[E|[E|[]]]]]]]]; discriminate.
    + apply in_app_or in Hin. simpl in Hin.
      destruct Hin as [[E|[E|[E|[E|[E|[E|[E|[E|[]]]]]]]]]|[E|[]]];
        discriminate.
    + assert (Hrest : In (pthread_create i) calls).
      { apply in_app_or in Hin. destruct Hin as [Hin|Hin]; [|exact Hin].
        simpl in Hin.
        destruct Hin as [E|[E|[E|[E|[E|[E|[E|[E|[]]]]]]]]]; discriminate. }
      exists cfg, calls. repeat split; auto.
    + assert (Hrest : In (pthread_create i)
                        (map pthread_create (seq 0 (Z.to_nat (c_threads cfg)))
                         ++ map pthread_join
                              (seq 0 (Z.to_nat (c_threads cfg)))
                         ++ [report_of cfg (thread_contexts r)])).
      { apply in_app_or in Hin. destruct Hin as [Hin|Hin]; [|exact Hin].
        simpl in Hin.
        destruct Hin as [E|[E|[E|[E|[E|[E|[E|[E|[]]]]]]]]]; discriminate. }
      exists cfg. eexists. repeat split; eauto.
      apply in_app_or in Hrest. destruct Hrest as [Hi|Hi].
      * apply in_map_iff in Hi. destruct Hi as (k & E & Hk).
        injection E as <-. apply in_seq in Hk. lia.
      * apply in_app_or in Hi. destruct Hi as [Hi|[E|[]]]; [|discriminate].
        apply in_map_iff in Hi. destruct Hi as (k & E & _). discriminate.
  - unfold main in H. rewrite Hscan in H. injection H as <-.
    simpl in Hin. destruct Hin as [E|[]]; discriminate.
Qed.

Lemma X9_threads_only_after_setup_witness :
  exists cfg rest,
    scan_arguments (tl (argv (calm_process []))) defaults = Some cfg
    /\ main_trace calm_result = main_prefix cfg ++ rest.
Proof.
  destruct (X9_threads_only_after_setup (calm_process []) 10 calm_result 1
              calm_main)
    as (cfg & rest & Hscan & _ & _ & _ & _ & _ & Htr & _).
  - simpl. tauto.
  - exists cfg, rest. split; [exact Hscan | exact Htr].
Defined.

(** X10. On every path on which [main] has connected it calls [PQfinish]
    exactly once, whether the schema commands succeed or not; when the
    connection fails it returns without sending anything. *)
Theorem X10_main_releases_its_connection p fuel cfg r :
  scan_arguments (tl (argv p)) defaults = Some cfg ->
  main p fuel = Returned r ->
  (schema_conn_status p = CONNECTION_OK ->
   filter is_PQfinish (main_trace r) = [PQfinish])
  /\ (schema_conn_status p = CONNECTION_BAD ->
      status r = EXIT_FAILURE
      /\ forall s, ~ In (PQexec s) (main_trace r)).
Proof.
  intros Hscan H.
  destruct (main_paths p fuel cfg r Hscan H)
    as [(Hc & Hs & Htr)|[(Hc & _ & _ & Htr)|[(Hc & _ & _ & _ & Htr)
       |(Hc & _ & _ & [(_ & _ & Htr)|[(_ & _ & calls & Htr & Hcalls & _)
                                     |(_ & _ & Htr)]])]]];
    (split; [intros Hok | intros Hbad; try congruence]); try congruence;
    rewrite Htr.
  - split; [exact Hs|]. intros s [E|[E|[E|[]]]]; discriminate.
  - reflexivity.
  - reflexivity.
  - reflexivity.
  - rewrite filter_app. simpl.
    rewrite (proj1 (thread_call_not_finish calls Hcalls)). reflexivity.
  - rewrite !app_assoc, filter_app, <- app_assoc, filter_app. simpl.
    rewrite (proj1 (thread_call_not_finish _
                      (Forall_thread_calls (Z.to_nat (c_threads cfg))))).
    reflexivity.
Qed.

Lemma X10_main_releases_its_connection_witness :
  filter is_PQfinish (main_trace calm_result) = [PQfinish].
Proof.
  destruct (X10_main_releases_its_connection (calm_process []) 10 defaults
              calm_result eq_refl calm_main) as (H & _).
  apply H. reflexivity.
Defined.

(** X11. [main] prints no report on any path that returns
    [EXIT_FAILURE]. *)
Theorem X11_no_report_on_failure p fuel r :
  main p fuel = Returned r -> status r = EXIT_FAILURE ->
  filter is_report (main_trace r) = [] /\ thread_contexts r = [].
Proof.
  intros H Hs. split; [|eapply main_failure_contexts; eauto].
  destruct (scan_arguments (tl (argv p)) defaults) as [cfg|] eqn:Hscan.
  - destruct (main_paths p fuel cfg r Hscan H)
      as [(_ & _ & Htr)|[(_ & _ & _ & Htr)|[(_ & _ & _ & _ & Htr)
         |(_ & _ & _ & [(_ & _ & Htr)|[(_ & _ & calls & Htr & Hcalls & _)
                                       |(_ & Hok & _)]])]]];
      try congruence; rewrite Htr; try reflexivity.
    rewrite filter_app. simpl.
    exact (proj2 (thread_call_not_finish calls Hcalls)).
  - unfold main in H. rewrite Hscan in H. injection H as <-. reflexivity.
Qed.

Lemma refused_main :
  main refused_process 0
  = Returned
      (mk_main_result EXIT_FAILURE
         [gettimeofday; PQconnectdb "dbname=postgres"; PQexec DropTable;
          fprintf_stderr "Failed: "; PQfinish] []).
Proof. reflexivity. Defined.

Lemma X11_no_report_on_failure_witness :
  filter is_report
    [gettimeofday; PQconnectdb "dbname=postgres"; PQexec DropTable;
     fprintf_stderr "Failed: "; PQfinish] = [].
Proof.
  exact (proj1 (X11_no_report_on_failure refused_process 0 _ refused_main
                  eq_refl)).
Defined.

Lemma launch_stops_at_negative p cfg fin :
  forall todo i j,
    (i <= j < i + todo)%nat ->
    (forall k, (i <= k < j)%nat -> 0 <= pthread_create_result p k) ->
    pthread_create_result p j < 0 ->
    launch p cfg fin todo i
    = (map pthread_create (seq i (S (j - i))) ++ [perror "pthread_create"],
       None).
Proof.
  induction todo as [|todo IH]; intros i j Hj Hbefore Hneg; [lia|].
  simpl. destruct (Nat.eq_dec j i) as [->|Hne].
  - replace (pthread_create_result p i <? 0) with true
      by (symmetry; apply Z.ltb_lt; exact Hneg).
    rewrite Nat.sub_diag. reflexivity.
  - replace (pthread_create_result p i <? 0) with false
      by (symmetry; apply Z.ltb_ge; apply Hbefore; lia).
    rewrite (IH (S i) j) by (try lia; try assumption; intros k Hk; apply Hbefore; lia).
    replace (j - i)%nat with (S (j - S i)) by lia. reflexivity.
Qed.

(** X12. When a [pthread_create] returns a negative value, [main] calls
    [perror] and returns [EXIT_FAILURE] at once: no further thread is
    launched, no thread is joined, not even those already running, and no
    report is printed. *)
Theorem X12_negative_launch_aborts p cfg j fuel :
  scan_arguments (tl (argv p)) defaults = Some cfg ->
  schema_conn_status p = CONNECTION_OK ->
  drop_status p = PGRES_COMMAND_OK ->
  create_status p = PGRES_COMMAND_OK ->
  malloc_succeeds p = true ->
  (j < Z.to_nat (c_threads cfg))%nat ->
  (forall k, (k < j)%nat -> 0 <= pthread_create_result p k) ->
  pthread_create_result p j < 0 ->
  main p fuel
  = Returned
      (mk_main_result EXIT_FAILURE
         (main_prefix cfg ++ map pthread_create (seq 0 (S j))
          ++ [perror "pthread_create"])
         []).
Proof.
  intros Hscan Hconn Hdrop Hcreate Hmalloc Hj Hbefore Hneg.
  rewrite <- (malloc_succeeds_spec p cfg Hscan) in Hmalloc.
  unfold main. rewrite Hscan, Hconn, Hdrop, Hcreate, Hmalloc. simpl.
  rewrite (launch_stops_at_negative p cfg _ _ 0 j);
    [|lia | intros k Hk; apply Hbefore; lia | exact Hneg].
  rewrite Nat.sub_0_r. reflexivity.
Qed.

Lemma X12_negative_launch_aborts_witness :
  main negative_process 0
  = Returned
      (mk_main_result EXIT_FAILURE
         (main_prefix defaults
          ++ [pthread_create 0%nat; pthread_create 1%nat;
              perror "pthread_create"])
         []).
Proof.
  apply (X12_negative_launch_aborts negative_process defaults 1 0);
    try reflexivity.
  - vm_compute. lia.
  - intros k Hk. assert (k = 0%nat) by lia. subst k. vm_compute. discriminate.
Defined.

Lemma negative_allocation_refused p (threads : Z) :
  CInt.in_range threads -> threads < 0 ->
  malloc_returns p (allocation_size threads) = false.
Proof.
  unfold CInt.in_range, CInt.INT_MIN, CInt.INT_MAX. intros Hr Hneg.
  unfold malloc_returns, allocation_size, sizeof_thread_context, PTRDIFF_MAX.
  replace (64 * threads) with (64 * threads + 2 ^ 64 + -1 * 2 ^ 64) by lia.
  rewrite Z_mod_plus_full, Z.mod_small by lia.
  replace (64 * threads + 2 ^ 64 <=? 2 ^ 63 - 1) with false; [reflexivity|].
  symmetry. apply Z.leb_gt. lia.
Qed.

(** X13. With [--threads 0], when the allocation of no bytes returns a
    block, no thread is launched or joined and [main] reports at once: 0
    transactions over the seconds given and 0 failures, with
    [EXIT_SUCCESS].  With a negative [--threads] the size of line 181,
    computed in [size_t], is more than any allocation can supply:
    [main] prints "out of memory" and returns [EXIT_FAILURE]. *)
Theorem X13_zero_or_negative_threads p cfg fuel :
  scan_arguments (tl (argv p)) defaults = Some cfg ->
  schema_conn_status p = CONNECTION_OK ->
  drop_status p = PGRES_COMMAND_OK ->
  create_status p = PGRES_COMMAND_OK ->
  (c_threads cfg = 0 -> malloc_succeeds p = true ->
   main p fuel
   = Returned
       (mk_main_result EXIT_SUCCESS
          (main_prefix cfg
           ++ [printf_tps (mk_quotient 0 (c_seconds cfg)) 0])
          []))
  /\ (c_threads cfg < 0 ->
      malloc_succeeds p = false
      /\ main p fuel
         = Returned
             (mk_main_result EXIT_FAILURE
                (main_prefix cfg ++ [fprintf_stderr "out of memory"])
                [])).
Proof.
  intros Hscan Hconn Hdrop Hcreate. split.
  - intros Hthreads Hmalloc.
    rewrite <- (malloc_succeeds_spec p cfg Hscan) in Hmalloc.
    unfold main. rewrite Hscan, Hconn, Hdrop, Hcreate, Hmalloc. simpl.
    rewrite Hthreads. reflexivity.
  - intros Hneg.
    assert (Hthreads : CInt.in_range (c_threads cfg)).
    { apply (scan_arguments_keeps (fun x => CInt.in_range (c_threads x)))
        with (a := tl (argv p)) (c := defaults); auto;
        try (intros; apply atoi_range).
      vm_compute. split; discriminate. }
    pose proof (negative_allocation_refused p _ Hthreads Hneg) as Hrefused.
    split; [rewrite <- (malloc_succeeds_spec p cfg Hscan); exact Hrefused|].
    unfold main. rewrite Hscan, Hconn, Hdrop, Hcreate, Hrefused. reflexivity.
Qed.

Lemma X13_zero_or_negative_threads_witness :
  main (calm_process ["--threads"%string; "0"%string]) 0
  = Returned
      (mk_main_result EXIT_SUCCESS
         (main_prefix (mk_config "dbname=postgres" 1 10 60 false 0)
          ++ [printf_tps (mk_quotient 0 60) 0])
         [])
  /\ main (calm_process ["--threads"%string; "-3"%string]) 0
     = Returned
         (mk_main_result EXIT_FAILURE
            (main_prefix (mk_config "dbname=postgres" 1 10 60 false (-3))
             ++ [fprintf_stderr "out of memory"])
            []).
Proof.
  split.
  - apply (X13_zero_or_negative_threads
             (calm_process ["--threads"%string; "0"%string])
             (mk_config "dbname=postgres" 1 10 60 false 0) 0);
      reflexivity.
  - apply (X13_zero_or_negative_threads
             (calm_process ["--threads"%string; "-3"%string])
             (mk_config "dbname=postgres" 1 10 60 false (-3)) 0);
      reflexivity.
Defined.

(** ** Totals *)

Lemma thread_main_counters w cfg fin i fuel c' tr :
  Z.of_nat i <= CInt.INT_MAX ->
  thread_main w (initial_context cfg fin i) fuel = Returned (c', tr) ->
  Z.of_nat (iterations tr) <= CInt.INT_MAX ->
  transactions c' = Z.of_nat (iterations tr)
  /\ 0 <= failures c' <= transactions c'.
Proof.
  intros Hi H Hmax.
  destruct (initial_context_ranges cfg fin i Hi) as (R1 & R2 & R3).
  destruct (conn_status w) eqn:Ec.
  - destruct (ExecStatusType_eqb (isolation_status w) PGRES_COMMAND_OK) eqn:Ei.
    + apply ExecStatusType_eqb_eq in Ei.
      apply thread_main_returned in H; try assumption.
      destruct H as (N & body & _ & _ & Hn & _ & Ht & (f & Hf & Hfail) & _).
      rewrite Hn in *. simpl in Ht, Hfail.
      rewrite wrap_in_range in Ht, Hfail
        by (unfold CInt.in_range, CInt.INT_MIN, CInt.INT_MAX in *; lia).
      lia.
    + unfold thread_main in H. rewrite Ec, Ei in H. injection H as <- <-.
      simpl. lia.
  - unfold thread_main in H. rewrite Ec in H. injection H as <- <-.
    simpl. lia.
Qed.

Lemma sum_Z_le (l : list thread_context) :
  Forall (fun c => 0 <= failures c <= transactions c) l ->
  0 <= sum_Z (map failures l) <= sum_Z (map transactions l).
Proof.
  induction 1 as [|c l Hc _ IH]; simpl; lia.
Qed.

(** X14. In a report the failures never exceed the transactions: every
    worker leaves [0 <= failures <= transactions], and so the totals
    printed satisfy the same when the total of transactions fits an
    [int]. *)
Theorem X14_report_failures_bounded p fuel cfg r :
  scan_arguments (tl (argv p)) defaults = Some cfg ->
  main p fuel = Returned r -> status r = EXIT_SUCCESS ->
  (forall i c' tr,
     (i < Z.to_nat (c_threads cfg))%nat ->
     thread_main (worker_world p i) (initial_context cfg (deadline p cfg) i)
       fuel = Returned (c', tr) ->
     Z.of_nat (iterations tr) <= CInt.INT_MAX) ->
  CInt.in_range (sum_Z (map transactions (thread_contexts r))) ->
  Forall (fun c => 0 <= failures c <= transactions c) (thread_contexts r)
  /\ exists before total_transactions total_failures,
       main_trace r
       = before ++ [printf_tps (mk_quotient total_transactions (c_seconds cfg))
                      total_failures]
       /\ 0 <= total_failures <= total_transactions.
Proof.
  intros Hscan H Hs Hpasses Hsum.
  assert (Hthreads : CInt.in_range (c_threads cfg)).
  { apply (scan_arguments_keeps (fun x => CInt.in_range (c_threads x)))
      with (a := tl (argv p)) (c := defaults); auto; try (intros; apply atoi_range).
    vm_compute. split; discriminate. }
  destruct (main_success_inv p fuel r H Hs)
    as (cfg' & t4 & contexts & t5 & Hscan' & Hl & Hj & Htr).
  rewrite Hscan in Hscan'. injection Hscan' as <-.
  apply launch_inv in Hl. destruct Hl as (_ & ->).
  apply join_inv in Hj. destruct Hj as (_ & Hlen & Hnth).
  rewrite length_map, length_seq in Hlen.
  assert (Hall : Forall (fun c => 0 <= failures c <= transactions c)
                   (thread_contexts r)).
  { apply Forall_forall. intros c' Hin.
    apply In_nth_error in Hin. destruct Hin as (k & Hk).
    assert (Hlt : (k < Z.to_nat (c_threads cfg))%nat).
    { rewrite <- Hlen. apply nth_error_Some. congruence. }
    destruct (Hnth k (initial_context cfg (deadline p cfg) k) c')
      as (_ & _ & t & Hrun); [|exact Hk|].
    - rewrite (nth_error_nth' _ (initial_context cfg (deadline p cfg) 0))
        by (rewrite length_map, length_seq; exact Hlt).
      unfold deadline. rewrite map_nth, seq_nth by exact Hlt. reflexivity.
    - simpl in Hrun.
      apply (thread_main_counters _ _ _ _ _ _ _) in Hrun.
      + tauto.
      + unfold CInt.in_range, CInt.INT_MAX in *. lia.
      + eapply Hpasses; [exact Hlt | exact Hrun]. }
  split; [exact Hall|].
  pose proof (sum_Z_le _ Hall) as Hle.
  exists (main_prefix cfg ++ t4 ++ t5),
    (fst (count_up (thread_contexts r))), (snd (count_up (thread_contexts r))).
  split; [rewrite Htr, <- !app_assoc; reflexivity|].
  rewrite count_up_sums. simpl.
  rewrite !wrap_in_range;
    unfold CInt.in_range, CInt.INT_MIN, CInt.INT_MAX in *; lia.
Qed.

Lemma X14_report_failures_bounded_witness :
  Forall (fun c => 0 <= failures c <= transactions c)
    (thread_contexts calm_result).
Proof.
  destruct (X14_report_failures_bounded (calm_process []) 10 defaults
              calm_result eq_refl calm_main eq_refl) as (H & _).
  - intros i c' tr Hi Hrun.
    change (Z.to_nat (c_threads defaults)) with 2%nat in Hi.
    destruct i as [|[|i]]; [| |lia]; vm_compute in Hrun;
      injection Hrun as <- <-; vm_compute; discriminate.
  - vm_compute. split; discriminate.
  - exact H.
Defined.

(** X15. With [--seconds] zero or negative, and a clock that does not run
    backwards between the reading of [main] and a worker's first reading,
    the finish time is reached at that first reading: a connected worker
    sends one statement and returns with [transactions = 1]. *)
Theorem X15_no_seconds_one_pass p cfg w i fuel :
  scan_arguments (tl (argv p)) defaults = Some cfg ->
  c_seconds cfg <= 0 ->
  0 <= c_queries_per_update cfg < CInt.INT_MAX ->
  1 <= c_rows cfg ->
  Z.of_nat i <= CInt.INT_MAX ->
  conn_status w = CONNECTION_OK ->
  isolation_status w = PGRES_COMMAND_OK ->
  normalised (start_time p) -> normalised (clock w 0) ->
  micros (start_time p) <= micros (clock w 0) ->
  exists c' tr,
    thread_main w (initial_context cfg (deadline p cfg) i) (S fuel)
    = Returned (c', tr)
    /\ iterations tr = 1%nat /\ transactions c' = 1.
Proof.
  intros Hscan Hsec Hq Hrows Hi Hc Hiso Hn0 Hn1 Hclock.
  destruct (initial_context_ranges cfg (deadline p cfg) i Hi) as (R1 & R2 & R3).
  assert (Hlate : deadline_reached (clock w 0) (deadline p cfg) = true).
  { apply deadline_reached_iff; [exact Hn1 | exact Hn0 |].
    unfold deadline. rewrite compute_finish_time_micros. nia. }
  destruct (worker_exits_at_deadline w (initial_context cfg (deadline p cfg) i)
              0%nat Hc Hiso) with (fuel := S fuel) as [Hyes _];
    try assumption.
  - rewrite initial_context_cycle by assumption. lia.
  - intros m Hm. lia.
  - destruct Hyes as (c' & tr & Hrun & Hn & Ht & _); [lia|].
    exists c', tr. split; [exact Hrun|]. split; [exact Hn|].
    rewrite Ht. reflexivity.
Qed.

Lemma X15_no_seconds_one_pass_witness :
  exists c' tr,
    thread_main calm_world
      (initial_context (mk_config "dbname=postgres" 1 10 0 false 2)
         (deadline (calm_process ["--seconds"%string; "0"%string])
            (mk_config "dbname=postgres" 1 10 0 false 2)) 1) 1
    = Returned (c', tr)
    /\ iterations tr = 1%nat /\ transactions c' = 1.
Proof.
  apply (X15_no_seconds_one_pass
           (calm_process ["--seconds"%string; "0"%string])
           (mk_config "dbname=postgres" 1 10 0 false 2) calm_world 1 0);
    try reflexivity;
    unfold normalised, micros, CInt.INT_MAX; simpl; lia.
Defined.

(** ** The statement buffers *)

Lemma string_of_uint_length (d : Decimal.uint) :
  String.length (NilEmpty.string_of_uint d) = Decimal.nb_digits d.
Proof. induction d; simpl; congruence. Qed.

Lemma of_uint_acc_lower (d : Decimal.uint) :
  forall acc,
    Z.pos acc * 10 ^ Z.of_nat (Decimal.nb_digits d)
    <= Z.pos (Pos.of_uint_acc d acc).
Proof.
  induction d; intros acc; cbn [Pos.of_uint_acc Decimal.nb_digits];
    try (rewrite Z.pow_0_r; lia);
    rewrite Nat2Z.inj_succ, Z.pow_succ_r by lia;
    match goal with
    | |- _ <= Z.pos (Pos.of_uint_acc _ ?a) =>
        specialize (IHd a);
        assert (10 * Z.pos acc <= Z.pos a) by lia
    end;
    pose proof (Z.pow_nonneg 10 (Z.of_nat (Decimal.nb_digits d)));
    nia.
Qed.

(** The decimal digits of a positive number do not start with 0. *)
Lemma to_uint_head (p : positive) :
  match Pos.to_uint p with Decimal.D0 _ => False | _ => True end.
Proof.
  pose proof (DecimalPos.Unsigned.to_of (Pos.to_uint p)) as H.
  rewrite DecimalPos.Unsigned.of_to in H. simpl in H.
  pose proof (DecimalPos.Unsigned.to_uint_nonzero p) as Hnz.
  destruct (Pos.to_uint p) as [|l| | | | | | | | |]; try exact I.
  unfold Decimal.unorm in H. simpl in H.
  pose proof (DecimalFacts.nb_digits_nzhead l) as Hle.
  destruct (Decimal.nzhead l) eqn:E; try discriminate H.
  - injection H as ->. apply Hnz. reflexivity.
  - injection H as <-. simpl in Hle. lia.
Qed.

Lemma to_uint_digits (p : positive) :
  Z.pos p < 10 ^ 10 -> (Decimal.nb_digits (Pos.to_uint p) <= 10)%nat.
Proof.
  intros Hp.
  pose proof (DecimalPos.Unsigned.of_to p) as Hof.
  pose proof (to_uint_head p) as Hhead.
  destruct (Pos.to_uint p) as [|l|l|l|l|l|l|l|l|l|l]; try contradiction;
    simpl in Hof; try discriminate Hof;
    injection Hof as <-;
    match goal with
    | H : Z.pos (Pos.of_uint_acc _ ?a) < _ |- _ =>
        pose proof (of_uint_acc_lower l a) as Hlow
    end;
    cbn [Decimal.nb_digits];
    assert (Hpow : 10 ^ Z.of_nat (Decimal.nb_digits l) < 10 ^ 10)
      by (pose proof (Z.pow_nonneg 10 (Z.of_nat (Decimal.nb_digits l)));
          nia);
    apply Z.pow_lt_mono_r_iff in Hpow; lia.
Qed.

Lemma append_length (a b : string) :
  String.length (a ++ b)%string = (String.length a + String.length b)%nat.
Proof. induction a as [|ch a IH]; simpl; [reflexivity | rewrite IH; reflexivity]. Qed.

(** [%d] of an [int] takes at most 11 characters. *)
Lemma string_of_Z_length (z : Z) :
  CInt.in_range z -> (String.length (string_of_Z z) <= 11)%nat.
Proof.
  unfold CInt.in_range, CInt.INT_MIN, CInt.INT_MAX, string_of_Z. intros H.
  destruct z as [|p|p]; simpl.
  - lia.
  - rewrite string_of_uint_length.
    pose proof (to_uint_digits p). lia.
  - rewrite string_of_uint_length.
    pose proof (to_uint_digits p). lia.
Qed.

(** X16. The statements built with [snprintf] fit their buffers: for an
    [int] key the update statement is shorter than the 80 characters of
    the buffer of line 71, and for an [int] number of rows the statement
    that creates and fills the table is shorter than the 256 characters
    of the buffer of line 113, so neither is ever cut short. *)
Theorem X16_statements_fit_their_buffers (n : Z) :
  CInt.in_range n ->
  (String.length (sql_of (Update n)) < 80)%nat
  /\ (String.length (sql_of (CreateTable n)) < 256)%nat.
Proof.
  intros H. pose proof (string_of_Z_length n H) as Hlen.
  unfold sql_of. rewrite !append_length. simpl String.length.
  lia.
Qed.

Lemma X16_statements_fit_their_buffers_witness :
  (String.length (sql_of (Update (-2147483648))) < 80)%nat
  /\ (String.length (sql_of (CreateTable (-2147483648))) < 256)%nat.
Proof.
  apply X16_statements_fit_their_buffers. vm_compute. split; discriminate.
Defined.

(** ** What a worker writes *)

(** X17. A worker writes to the two counters of its context and to
    nothing else in it: the context it leaves is the one it was given
    with [transactions] and [failures] replaced. *)
Theorem X17_worker_writes_counters_only w c0 fuel c' tr :
  thread_main w c0 fuel = Returned (c', tr) ->
  c' = mk_context (conn_info c0) (finish_time c0) (queries_per_update c0)
         (rows c0) (ssi c0) (thread_number c0) (transactions c')
         (failures c') (cycle c0).
Proof.
  intros H. apply thread_main_same_parameters in H.
  destruct H as (H1 & H2 & H3 & H4 & H5 & H6 & H7).
  destruct c'. simpl in *. congruence.
Qed.

Lemma X17_worker_writes_counters_only_witness :
  calm_final_0
  = mk_context "dbname=postgres" (mk_timeval 60 0) 1 10 false 0
      (transactions calm_final_0) (failures calm_final_0) 2.
Proof.
  exact (X17_worker_writes_counters_only calm_world (sample_context 0) 10
           calm_final_0 calm_trace_0 calm_run_0).
Defined.

(** ** A join that fails *)

Lemma join_stops_at_negative p fuel (final : nat -> thread_context) contexts :
  forall i m,
    (m < List.length contexts)%nat ->
    (forall k c, (k < m)%nat -> nth_error contexts k = Some c ->
                 pthread_create_result p (i + k) = 0
                 /\ pthread_join_result p (i + k) = 0
                 /\ exists tr,
                      thread_main (worker_world p (i + k)) c fuel
                      = Returned (final (i + k)%nat, tr)) ->
    pthread_create_result p (i + m) = 0 ->
    pthread_join_result p (i + m) < 0 ->
    join p fuel contexts i
    = Returned (map pthread_join (seq i (S m)) ++ [perror "pthread_join"],
                None).
Proof.
  induction contexts as [|c contexts IH]; intros i m Hm Hbefore Hc Hneg;
    [simpl in Hm; lia|].
  destruct m as [|m].
  - rewrite Nat.add_0_r in Hc, Hneg. simpl. rewrite Hc.
    replace (pthread_join_result p i <? 0) with true
      by (symmetry; apply Z.ltb_lt; exact Hneg).
    reflexivity.
  - destruct (Hbefore 0%nat c) as (Hc0 & Hj0 & tr & Hrun);
      [lia | reflexivity |].
    rewrite Nat.add_0_r in Hc0, Hj0, Hrun.
    cbn [join]. rewrite Hc0, Hj0, Hrun. cbn [Z.ltb Z.compare Z.eqb bind].
    rewrite (IH (S i) m).
    + reflexivity.
    + simpl in Hm. lia.
    + intros k c1 Hk Hnth.
      replace (S i + k)%nat with (i + S k)%nat by lia.
      apply Hbefore; [lia | exact Hnth].
    + replace (S i + m)%nat with (i + S m)%nat by lia. exact Hc.
    + replace (S i + m)%nat with (i + S m)%nat by lia. exact Hneg.
Qed.

(** X18. When a [pthread_join] returns a negative value, [main] calls
    [perror] and returns [EXIT_FAILURE] without a report and without
    waiting for that thread or the ones after it. *)
Theorem X18_negative_join_aborts
  p cfg (final : nat -> thread_context) m fuel :
  scan_arguments (tl (argv p)) defaults = Some cfg ->
  schema_conn_status p = CONNECTION_OK ->
  drop_status p = PGRES_COMMAND_OK ->
  create_status p = PGRES_COMMAND_OK ->
  malloc_succeeds p = true ->
  (m < Z.to_nat (c_threads cfg))%nat ->
  (forall k, (k < Z.to_nat (c_threads cfg))%nat ->
             pthread_create_result p k = 0) ->
  (forall k, (k < m)%nat ->
     pthread_join_result p k = 0
     /\ exists tr,
          thread_main (worker_world p k)
            (initial_context cfg (deadline p cfg) k) fuel
          = Returned (final k, tr)) ->
  pthread_join_result p m < 0 ->
  main p fuel
  = Returned
      (mk_main_result EXIT_FAILURE
         (main_prefix cfg
          ++ map pthread_create (seq 0 (Z.to_nat (c_threads cfg)))
          ++ map pthread_join (seq 0 (S m)) ++ [perror "pthread_join"])
         []).
Proof.
  intros Hscan Hconn Hdrop Hcreate Hmalloc Hm Hcreates Hbefore Hneg.
  rewrite <- (malloc_succeeds_spec p cfg Hscan) in Hmalloc.
  unfold main. rewrite Hscan, Hconn, Hdrop, Hcreate, Hmalloc. simpl.
  rewrite launch_completes
    by (intros j Hj; rewrite Hcreates by lia; lia).
  rewrite (join_stops_at_negative p fuel final _ 0 m).
  - reflexivity.
  - rewrite length_map, length_seq. exact Hm.
  - intros k c Hk Hnth. apply nth_error_map_seq in Hnth.
    destruct Hnth as (Hlt & ->). simpl.
    destruct (Hbefore k Hk) as (Hj & Hrun).
    split; [apply Hcreates; exact Hlt|]. split; assumption.
  - simpl. apply Hcreates. exact Hm.
  - simpl. exact Hneg.
Qed.

Lemma X18_negative_join_aborts_witness :
  main unjoined_process 10
  = Returned
      (mk_main_result EXIT_FAILURE
         (main_prefix defaults
          ++ [pthread_create 0%nat; pthread_create 1%nat]
          ++ [pthread_join 0%nat; pthread_join 1%nat]
          ++ [perror "pthread_join"])
         []).
Proof.
  apply (X18_negative_join_aborts unjoined_process defaults
           (fun _ => calm_final_0) 1 10); try reflexivity.
  - vm_compute. lia.
  - intros k Hk. assert (k = 0%nat) by lia. subst k.
    split; [reflexivity|]. exists calm_trace_0. reflexivity.
Defined.

(** ** The text of a statement *)

Lemma string_of_Z_inj (a b : Z) : string_of_Z a = string_of_Z b -> a = b.
Proof.
  unfold string_of_Z. intros H.
  apply DecimalZ.to_int_inj.
  pose proof (NilEmpty.isi (Z.to_int a)) as Ha.
  pose proof (NilEmpty.isi (Z.to_int b)) as Hb.
  rewrite H in Ha. congruence.
Qed.

Lemma append_inj_l (p x y : string) : (p ++ x = p ++ y)%string -> x = y.
Proof.
  induction p as [|ch p IH]; simpl; intros H; [exact H|].
  injection H as H. apply IH. exact H.
Qed.

Lemma append_inj_r (t : string) :
  forall x y, (x ++ t = y ++ t)%string -> x = y.
Proof.
  assert (Hlen : forall x y, (x ++ t = y ++ t)%string ->
                             String.length x = String.length y).
  { intros x y H. apply (f_equal String.length) in H.
    rewrite !append_length in H. lia. }
  induction x as [|ch x IH]; intros y H; pose proof (Hlen _ _ H) as Hl;
    destruct y as [|ch' y]; simpl in Hl; try discriminate Hl;
    [reflexivity|].
  simpl in H. injection H as -> H. f_equal. apply IH. exact H.
Qed.

(** X19. The text handed to [PQexec] determines the statement: two
    statements with the same text are the same, so updates of different
    keys, and tables of different sizes, are different commands. *)
Theorem X19_statement_text_is_injective (s1 s2 : statement) :
  sql_of s1 = sql_of s2 -> s1 = s2.
Proof.
  destruct s1 as [[]|a| | |a], s2 as [[]|b| | |b]; intros H;
    try reflexivity; try (simpl in H; discriminate H).
  - unfold sql_of in H. apply append_inj_l in H.
    apply string_of_Z_inj in H. congruence.
  - unfold sql_of in H. apply append_inj_l in H.
    apply append_inj_r in H. apply string_of_Z_inj in H. congruence.
Qed.

Lemma X19_statement_text_is_injective_witness :
  Update (0 + 7) = Update 7.
Proof.
  apply X19_statement_text_is_injective. reflexivity.
Defined.
